(** * The video stitcher service: a shallow embedding of its two server files

    The repository holds two variants of one Express server.  The primary
    one (the file with [results], [downloadToTmp] and [runFFmpeg]) fetches
    the four inputs itself, builds a normalised base clip, loops it under
    the narration and publishes the artifact in an in-memory result store.
    The older [server.js] delegates the downloads to ffmpeg through [run]
    and streams the artifact in the response.

    Conventions of the embedding:
    - request bodies are JavaScript values ([Js.value]); numbers are
      integers, which is all the handlers observe of them (zero-ness and
      the decimal rendering);
    - file contents, stream chunks and process output are strings;
    - the handlers run in a state-and-exception monad over the result
      store, the scratch file system and a trace of the effects performed;
    - everything the server does not decide itself (what a URL answers,
      what the external program does, whether the disk accepts a file, the
      random identifier, the clock) is an input: the record [world] and
      the arguments [id] and [now]. *)

From Stdlib Require Import ZArith String Ascii List Bool Lia.
From stdpp Require Import gmap strings list fin_maps pretty.

#[local] Set Warnings "-register-all".
Local Open Scope Z_scope.
Local Open Scope string_scope.
Local Open Scope list_scope.

(** ** Characters that cannot be written inside a string literal *)

Definition nl : string := String "010"%char EmptyString.
Definition dq : string := String "034"%char EmptyString.

(** ** JavaScript values, as far as the handlers inspect them *)

Module Js.

Inductive value : Type :=
| Undefined
| Null
| Bool (b : bool)
| Num (n : Z)
| Str (s : string)
| Arr (elems : list value)
| Obj (fields : list (string * value)).

(** [!!v] of JavaScript: the falsy values are undefined, null, false, 0
    and the empty string. *)
Definition truthy (v : value) : bool :=
  match v with
  | Undefined | Null => false
  | Bool b => b
  | Num n => negb (Z.eqb n 0)
  | Str s => negb (String.eqb s "")
  | Arr _ | Obj _ => true
  end.

Definition nullish (v : value) : bool :=
  match v with
  | Undefined | Null => true
  | _ => false
  end.

(** [a ?? b] *)
Definition coalesce (a b : value) : value :=
  if nullish a then b else a.

Fixpoint assoc (k : string) (fields : list (string * value)) : value :=
  match fields with
  | [] => Undefined
  | (k', v) :: rest => if String.eqb k' k then v else assoc k rest
  end.

(** [o?.k]: undefined on null and undefined, the own property on an
    object, undefined for the keys the handlers read on any other value. *)
Definition opt_prop (o : value) (k : string) : value :=
  match o with
  | Obj fields => assoc k fields
  | _ => Undefined
  end.

Definition is_string (v : value) : bool :=
  match v with Str _ => true | _ => false end.

Definition is_array (v : value) : bool :=
  match v with Arr _ => true | _ => false end.

(** [v.startsWith("http")] for a string [v]. *)
Definition starts_with_http (v : value) : bool :=
  match v with
  | Str s => String.prefix "http" s
  | _ => false
  end.

(** [String(v)], also the rendering of [${v}] in a template. *)
Fixpoint to_string (v : value) : string :=
  match v with
  | Undefined => "undefined"
  | Null => "null"
  | Bool true => "true"
  | Bool false => "false"
  | Num n => pretty n
  | Str s => s
  | Arr elems =>
      (fix join (l : list value) : string :=
         match l with
         | [] => ""
         | x :: rest =>
             let here := if nullish x then "" else to_string x in
             match rest with
             | [] => here
             | _ :: _ => here +:+ "," +:+ join rest
             end
         end) elems
  | Obj _ => "[object Object]"
  end.

(** [arr.find(p)]: the first element satisfying [p], else undefined. *)
Fixpoint find (p : value -> bool) (l : list value) : value :=
  match l with
  | [] => Undefined
  | x :: rest => if p x then x else find p rest
  end.

(** [k in o] for an object [o]. *)
Definition has_prop (o : value) (k : string) : bool :=
  match o with
  | Obj fields => existsb (fun kv => String.eqb (fst kv) k) fields
  | _ => false
  end.

(** The elements of an array; no other value reaches the places that use
    them. *)
Definition elements (v : value) : list value :=
  match v with Arr l => l | _ => [] end.

(** [arr[i]] *)
Definition index (l : list value) (i : nat) : value :=
  nth i l Undefined.

End Js.

(** ** The concat list file (primary server, "Create concat playlist") *)

(** [s.replace(/c/g, r)] for a one-character pattern [c] and a replacement
    [r] without [$]. *)
Fixpoint replace_all (c : ascii) (r : string) (s : string) : string :=
  match s with
  | EmptyString => EmptyString
  | String a rest =>
      if Ascii.eqb a c then r +:+ replace_all c r rest
      else String a (replace_all c r rest)
  end.

(** [p.replace(/'/g, "'\\''")]: the JavaScript literal ["'\\''"] is the four
    characters quote, backslash, quote, quote. *)
Definition escape_quotes (p : string) : string :=
  replace_all "'"%char "'\''" p.

Definition list_entry (p : string) : string :=
  "file '" +:+ escape_quotes p +:+ "'" +:+ nl.

Definition listTxt (v1 v2 v3 : string) : string :=
  list_entry v1 +:+ list_entry v2 +:+ list_entry v3.




(** ** The subprocess invoker: [runFFmpeg] (primary server) and [run]
    ([server.js]) *)

Module Proc.

(** The error object of a failed spawn: [err.code] (absent on some errors)
    and [err.message]. *)
Record spawn_error := { err_code : option string; err_message : string }.

(** What the child process object emits, in order. [Close] carries the exit
    code, null when a signal ended the process, and the signal, null
    otherwise. *)
Inductive event :=
| Stdout (d : string)
| Stderr (d : string)
| Error (e : spawn_error)
| Close (code : option Z) (signal : option string).

(** The promise the invoker returns. [Uncaught] is not a state of the
    promise: it records that an ['error'] event was emitted on an emitter
    with no ['error'] listener, which Node turns into a thrown, uncaught
    exception. *)
Inductive promise :=
| Pending
| Resolved
| Rejected (msg : string)
| Uncaught (e : spawn_error).

Record run_state := { stdout : string; stderr : string; settled : promise }.

Definition init : run_state := {| stdout := ""; stderr := ""; settled := Pending |}.

(** [resolve()] and [reject(e)] act on a pending promise only. *)
Definition settle (p : promise) (s : run_state) : run_state :=
  match settled s with
  | Pending => {| stdout := stdout s; stderr := stderr s; settled := p |}
  | _ => s
  end.

Definition add_stdout (d : string) (s : run_state) : run_state :=
  {| stdout := stdout s +:+ d; stderr := stderr s; settled := settled s |}.

Definition add_stderr (d : string) (s : run_state) : run_state :=
  {| stdout := stdout s; stderr := stderr s +:+ d; settled := settled s |}.

(** The listeners an invoker registers with [.on(...)]. *)
Record listeners := {
  on_stdout : option (string -> run_state -> run_state);
  on_stderr : option (string -> run_state -> run_state);
  on_error : option (spawn_error -> run_state -> run_state);
  on_close : option (option Z -> option string -> run_state -> run_state)
}.

Definition emit (ls : listeners) (s : run_state) (ev : event) : run_state :=
  match settled s with
  | Uncaught _ => s
  | _ =>
      match ev with
      | Stdout d => match on_stdout ls with Some f => f d s | None => s end
      | Stderr d => match on_stderr ls with Some f => f d s | None => s end
      | Error e =>
          match on_error ls with
          | Some f => f e s
          | None => {| stdout := stdout s; stderr := stderr s; settled := Uncaught e |}
          end
      | Close c sg => match on_close ls with Some f => f c sg s | None => s end
      end
  end.

Definition drive (ls : listeners) (evs : list event) : run_state :=
  fold_left (emit ls) evs init.

(** [${code}] and [${signal}] in a template: a number, a name, or null. *)
Definition show_code (c : option Z) : string :=
  match c with Some n => pretty n | None => "null" end.

Definition show_signal (sg : option string) : string :=
  match sg with Some n => n | None => "null" end.

(** [err.code || ""] *)
Definition code_or_empty (e : spawn_error) : string :=
  match err_code e with Some c => c | None => "" end.

Definition is_zero (c : option Z) : bool :=
  match c with Some n => Z.eqb n 0 | None => false end.

Definition ffmpeg_exit_message (c : option Z) (sg : option string) (s : run_state) : string :=
  "ffmpeg exited code=" +:+ show_code c +:+ " signal=" +:+ show_signal sg +:+ nl +:+
  "STDERR:" +:+ nl +:+ stderr s +:+ nl +:+ "STDOUT:" +:+ nl +:+ stdout s.

(** Primary server, [runFFmpeg]: stdout and stderr accumulated, an
    ['error'] listener and a ['close'] listener. *)
Definition runFFmpeg_listeners : listeners := {|
  on_stdout := Some add_stdout;
  on_stderr := Some add_stderr;
  on_error := Some (fun err =>
    settle (Rejected ("spawn ffmpeg failed: " +:+ code_or_empty err +:+ " " +:+ err_message err)));
  on_close := Some (fun code signal s =>
    if is_zero code then settle Resolved s
    else settle (Rejected (ffmpeg_exit_message code signal s)) s)
|}.

Definition runFFmpeg_promise (evs : list event) : promise :=
  settled (drive runFFmpeg_listeners evs).

(** [server.js], [run]: stderr accumulated and a ['close'] listener that
    reads the exit code only; nothing reads stdout and nothing listens for
    ['error']. *)
Definition run_listeners : listeners := {|
  on_stdout := None;
  on_stderr := Some add_stderr;
  on_error := None;
  on_close := Some (fun code _ s =>
    if is_zero code then settle Resolved s
    else settle (Rejected ("Command failed (" +:+ show_code code +:+ "): " +:+ stderr s)) s)
|}.

Definition run_promise (evs : list event) : promise :=
  settled (drive run_listeners evs).

(** Output events only, as a started process emits before it closes. *)
Definition is_output (ev : event) : bool :=
  match ev with Stdout _ | Stderr _ => true | _ => false end.

Fixpoint stdout_of (evs : list event) : string :=
  match evs with
  | [] => ""
  | Stdout d :: rest => d +:+ stdout_of rest
  | _ :: rest => stdout_of rest
  end.

Fixpoint stderr_of (evs : list event) : string :=
  match evs with
  | [] => ""
  | Stderr d :: rest => d +:+ stderr_of rest
  | _ :: rest => stderr_of rest
  end.

End Proc.

(** ** The world outside the server, the server state, and the monad of
    the handlers *)

(** A thrown value: an [Error] object with its [name] and [message]. *)
Record js_error := { e_name : string; e_message : string }.

(** [new Error(msg)] *)
Definition mkError (msg : string) : js_error :=
  {| e_name := "Error"; e_message := msg |}.

(** [e.message || String(e)]: [String(e)] of an error with an empty message
    is its name. *)
Definition error_text (e : js_error) : string :=
  if String.eqb (e_message e) "" then e_name e else e_message e.

(** A response body as a stream: the chunks it delivers, then its end or
    the error that interrupts it. *)
Record body_stream := { chunks : list string; failure : option js_error }.

Record http_response := { http_status : Z; http_body : option body_stream }.

(** [res.ok]: a status in the range 200 to 299. *)
Definition http_ok (r : http_response) : bool :=
  (200 <=? http_status r)%Z && (http_status r <=? 299)%Z.

Inductive fetch_result :=
| FetchRejected (e : js_error)
| FetchResponse (r : http_response).

Record world := {
  (** [os.tmpdir()] *)
  tmpdir : string;
  (** [process.env.API_KEY], the empty string when unset *)
  API_KEY : string;
  (** what [fetch(url, { redirect: "follow" })] settles to *)
  remote : string -> fetch_result;
  (** the error, if any, with which the file system refuses to create the
      file or directory at a path *)
  disk : string -> option js_error;
  (** what the spawned program emits, and the files it leaves, given the
      command, its arguments and the files it finds *)
  spawn : string -> list string -> gmap string string ->
          list Proc.event * gmap string string
}.

(** A Result Entry: [{ filePath, expiresAt }]. *)
Record result_entry := { filePath : string; expiresAt : Z }.

(** What the server does and observes, as recorded in the trace: a fetch, a
    file creation, a spawn, what an [await] on an invoker's promise met, a
    [results.set], a deletion, a directory creation or removal, a read. *)
Inductive effect :=
| EFetch (url : string)
| ECreate (path : string)
| ESpawn (cmd : string) (args : list string)
| EAwait (p : Proc.promise)
| EStore (id : string)
| EUnlink (path : string)
| EMkdtemp (path : string)
| ERmTree (path : string)
| ERead (path : string).

Record state := {
  (** [const results = new Map()] *)
  results : gmap string result_entry;
  (** the files of the scratch directory, by path *)
  files : gmap string string;
  (** what happened so far, oldest first *)
  trace : list effect
}.

(** How an [await]ed computation ends: it returns, it throws, its promise
    never settles, or an uncaught exception takes the process down. *)
Inductive outcome (A : Type) :=
| Returned (a : A)
| Threw (e : js_error)
| Hung
| Crashed (e : js_error).

Arguments Returned {A} a.
Arguments Threw {A} e.
Arguments Hung {A}.
Arguments Crashed {A} e.

Definition M (A : Type) : Type := state -> outcome A * state.

Definition ret {A} (a : A) : M A := fun st => (Returned a, st).

Definition throw {A} (e : js_error) : M A := fun st => (Threw e, st).

Definition bind {A B} (m : M A) (k : A -> M B) : M B :=
  fun st =>
    match m st with
    | (Returned a, st') => k a st'
    | (Threw e, st') => (Threw e, st')
    | (Hung, st') => (Hung, st')
    | (Crashed e, st') => (Crashed e, st')
    end.

Notation "'let*' x ':=' m 'in' k" := (bind m (fun x => k))
  (at level 10, x name, m at level 100, k at level 200).

(** An [await] on a promise that never settles. *)
Definition hang {A} : M A := fun st => (Hung, st).

(** An exception nothing catches. *)
Definition crash {A} (e : js_error) : M A := fun st => (Crashed e, st).

(** [try { m } catch (e) { h e }] *)
Definition try_catch {A} (m : M A) (h : js_error -> M A) : M A :=
  fun st =>
    match m st with
    | (Threw e, st') => h e st'
    | r => r
    end.

Definition perform (e : effect) : M unit :=
  fun st =>
    (Returned tt,
     {| results := results st; files := files st; trace := trace st ++ [e] |}).

Definition set_files (f : gmap string string) : M unit :=
  fun st => (Returned tt, {| results := results st; files := f; trace := trace st |}).

Definition get_files : M (gmap string string) :=
  fun st => (Returned (files st), st).

(** [path.join(dir, name)] for a directory without a trailing separator and
    a plain file name. *)
Definition path_join (dir name : string) : string := dir +:+ "/" +:+ name.

(** An HTTP response of the server. *)
Inductive body :=
| JsonBody (v : Js.value)
| TextBody (s : string)
| FileBody (content : string)
| NoBody.

Record response := { status : Z; headers : list (string * string); sent : body }.

(** [res.status(code).json(v)] *)
Definition json_response (code : Z) (v : Js.value) : response :=
  {| status := code; headers := []; sent := JsonBody v |}.

Record request := {
  (** [req.body] *)
  req_body : Js.value;
  (** [req.header("x-api-key")] *)
  req_api_key : option string;
  req_protocol : string;
  (** [req.get("host")] *)
  req_host : option string;
  (** [req.params.id] *)
  req_id : string
}.

(** [if (API_KEY) { if (!got || got !== API_KEY) return 401 }] *)
Definition unauthorized (key : string) (got : option string) : bool :=
  negb (String.eqb key "") &&
  match got with
  | None => true
  | Some g => String.eqb g "" || negb (String.eqb g key)
  end.

(** [try { fs.unlinkSync(p); } catch {}]: a missing file is no error to the
    caller, and a file that exists is taken to be deleted. *)
Definition unlink_quiet (p : string) : M unit :=
  let* _ := perform (EUnlink p) in
  let* fs := get_files in
  set_files (delete p fs).

(** Creating a file with a content, as [fs.promises.writeFile] and a write
    stream do: nothing is created when the file system refuses. *)
Definition create_file (w : world) (p : string) (content : string) : M unit :=
  let* _ := perform (ECreate p) in
  match disk w p with
  | Some e => throw e
  | None =>
      let* fs := get_files in
      set_files (<[p := content]> fs)
  end.

(** [await] on the promise of an invoker. *)
Definition await_promise (p : Proc.promise) : M unit :=
  let* _ := perform (EAwait p) in
  match p with
  | Proc.Resolved => ret tt
  | Proc.Rejected msg => throw (mkError msg)
  | Proc.Pending => hang
  | Proc.Uncaught e => crash (mkError (Proc.err_message e))
  end.

(** [spawn(cmd, args, ...)]: the program runs against the files it finds;
    the events it emits are handed to the invoker's listeners. *)
Definition spawn_process (w : world) (cmd : string) (args : list string)
  : M (list Proc.event) :=
  let* _ := perform (ESpawn cmd args) in
  let* fs := get_files in
  let* _ := set_files (snd (spawn w cmd args fs)) in
  ret (fst (spawn w cmd args fs)).

Fixpoint for_each {A} (f : A -> M unit) (l : list A) : M unit :=
  match l with
  | [] => ret tt
  | x :: rest => let* _ := f x in for_each f rest
  end.

(** ** The primary server *)

Module Primary.

(** [const RESULT_TTL_MS = 30 * 60 * 1000] *)
Definition RESULT_TTL_MS : Z := 30 * 60 * 1000.

Section Handlers.

Variable w : world.

(** [cleanupResults]: one turn of the loop over [results.entries()]. *)
Definition cleanup_entry (now : Z) (st : state) (kv : string * result_entry) : state :=
  if (expiresAt (snd kv) <=? now)%Z then
    {| results := delete (fst kv) (results st);
       files := delete (filePath (snd kv)) (files st);
       trace := trace st ++ [EUnlink (filePath (snd kv))] |}
  else st.

(** [cleanupResults], with [now] the value of [Date.now()]. *)
Definition cleanupResults (now : Z) : M unit :=
  fun st => (Returned tt, fold_left (cleanup_entry now) (map_to_list (results st)) st).

(** [pipeline(Readable.fromWeb(res.body), fs.createWriteStream(filePath))]:
    the file receives the chunks the stream delivers; an interrupted stream
    rejects and leaves what was written. *)
Definition pipeline (b : body_stream) (p : string) : M unit :=
  let* _ := create_file w p (String.concat "" (chunks b)) in
  match failure b with
  | Some e => throw e
  | None => ret tt
  end.

(** [downloadToTmp(url, filename)]; [url] is whatever the caller passes and
    is rendered as a string by [fetch] and by the templates. *)
Definition downloadToTmp (url : Js.value) (filename : string) : M string :=
  let* _ := perform (EFetch (Js.to_string url)) in
  match remote w (Js.to_string url) with
  | FetchRejected e => throw e
  | FetchResponse res =>
      if negb (http_ok res) then
        throw (mkError ("Failed to download " +:+ Js.to_string url +:+
                        " (HTTP " +:+ pretty (http_status res) +:+ ")"))
      else
        match http_body res with
        | None => throw (mkError ("No response body for " +:+ Js.to_string url))
        | Some b =>
            let filePath := path_join (tmpdir w) filename in
            let* _ := pipeline b filePath in
            ret filePath
        end
  end.

(** [runFFmpeg(args)] *)
Definition runFFmpeg (args : list string) : M unit :=
  let* evs := spawn_process w "ffmpeg" args in
  await_promise (Proc.runFFmpeg_promise evs).

Definition baseArgs (listPath basePath : string) : list string :=
  [ "-y"; "-loglevel"; "error";
    "-f"; "concat"; "-safe"; "0"; "-i"; listPath;
    "-vf"; "scale=1080:1920:force_original_aspect_ratio=increase,crop=1080:1920,setsar=1,fps=30";
    "-an"; "-c:v"; "libx264"; "-preset"; "veryfast"; "-crf"; "28";
    "-pix_fmt"; "yuv420p"; "-movflags"; "+faststart"; basePath ].

Definition finalArgs (basePath a1 outPath : string) : list string :=
  [ "-y"; "-loglevel"; "error";
    "-stream_loop"; "-1"; "-i"; basePath;
    "-i"; a1;
    "-map"; "0:v:0"; "-map"; "1:a:0"; "-shortest";
    "-c:v"; "libx264"; "-preset"; "veryfast"; "-crf"; "28"; "-pix_fmt"; "yuv420p";
    "-c:a"; "aac"; "-b:a"; "192k";
    "-movflags"; "+faststart"; outPath ].

(** [!v || typeof v !== "string" || !v.startsWith("http")] *)
Definition not_http_string (v : Js.value) : bool :=
  negb (Js.truthy v) || negb (Js.is_string v) || negb (Js.starts_with_http v).

(** [results.set(id, entry)] *)
Definition results_set (id : string) (entry : result_entry) : M unit :=
  fun st =>
    (Returned tt,
     {| results := <[id := entry]> (results st); files := files st;
        trace := trace st ++ [EStore id] |}).

(** [results.get(id)] *)
Definition results_get (id : string) : M (option result_entry) :=
  fun st => (Returned (results st !! id), st).

(** [app.post("/stitch", ...)]. [id] is the value of
    [crypto.randomBytes(8).toString("hex")] and [now] the value of
    [Date.now()] at the line that stores the result; the two console calls
    are left out. *)
Definition post_stitch (req : request) (id : string) (now : Z) : M response :=
  try_catch
    (if unauthorized (API_KEY w) (req_api_key req) then
       ret (json_response 401 (Js.Obj [("error", Js.Str "Unauthorized")]))
     else
       let audioUrl :=
         Js.coalesce (Js.opt_prop (req_body req) "audioUrl")
                     (Js.opt_prop (req_body req) "narrationUrl") in
       let videoUrls :=
         Js.coalesce (Js.opt_prop (req_body req) "videoUrls")
                     (Js.opt_prop (req_body req) "videos") in
       if not_http_string audioUrl then
         ret (json_response 400
                (Js.Obj [("error", Js.Str "audioUrl/narrationUrl missing/invalid");
                         ("audioUrl", audioUrl)]))
       else if negb (Js.is_array videoUrls) ||
               negb (Nat.eqb (length (Js.elements videoUrls)) 3) then
         ret (json_response 400
                (Js.Obj [("error", Js.Str "videoUrls/videos must be an array of exactly 3 URLs");
                         ("videoUrls", videoUrls)]))
       else
         let bad := Js.find not_http_string (Js.elements videoUrls) in
         if Js.truthy bad then
           ret (json_response 400
                  (Js.Obj [("error", Js.Str "One of the video URLs is invalid");
                           ("bad", bad)]))
         else
           let* v1 := downloadToTmp (Js.index (Js.elements videoUrls) 0) ("v1_" +:+ id +:+ ".mp4") in
           let* v2 := downloadToTmp (Js.index (Js.elements videoUrls) 1) ("v2_" +:+ id +:+ ".mp4") in
           let* v3 := downloadToTmp (Js.index (Js.elements videoUrls) 2) ("v3_" +:+ id +:+ ".mp4") in
           let* a1 := downloadToTmp audioUrl ("narr_" +:+ id +:+ ".mp3") in
           let listPath := path_join (tmpdir w) ("list_" +:+ id +:+ ".txt") in
           let* _ := create_file w listPath (listTxt v1 v2 v3) in
           let outPath := path_join (tmpdir w) ("final_" +:+ id +:+ ".mp4") in
           let basePath := path_join (tmpdir w) ("base_" +:+ id +:+ ".mp4") in
           let* _ := runFFmpeg (baseArgs listPath basePath) in
           let* _ := runFFmpeg (finalArgs basePath a1 outPath) in
           let* _ := unlink_quiet basePath in
           let* _ := results_set id {| filePath := outPath;
                                       expiresAt := now + RESULT_TTL_MS |} in
           let* _ := for_each unlink_quiet [v1; v2; v3; a1; listPath] in
           let baseUrl :=
             req_protocol req +:+ "://" +:+
             Js.to_string (match req_host req with
                           | Some h => Js.Str h
                           | None => Js.Undefined
                           end) in
           let resultUrl := baseUrl +:+ "/result/" +:+ id in
           ret (json_response 200
                  (Js.Obj [("ok", Js.Bool true); ("resultUrl", Js.Str resultUrl);
                           ("id", Js.Str id)])))
    (fun e => ret (json_response 500 (Js.Obj [("error", Js.Str (error_text e))]))).

(** [app.get("/result/:id", ...)]: the stream either delivers the file or,
    on its error, ends the response with status 500. *)
Definition get_result (req : request) : M response :=
  let id := req_id req in
  let* meta := results_get id in
  match meta with
  | None =>
      ret {| status := 404; headers := [];
             sent := TextBody "Not found (expired or missing)" |}
  | Some meta =>
      let hs :=
        [("Content-Type", "video/mp4");
         ("Content-Disposition",
          "attachment; filename=" +:+ dq +:+ "final_" +:+ id +:+ ".mp4" +:+ dq)] in
      let* _ := perform (ERead (filePath meta)) in
      let* fs := get_files in
      match fs !! filePath meta with
      | Some content => ret {| status := 200; headers := hs; sent := FileBody content |}
      | None => ret {| status := 500; headers := hs; sent := NoBody |}
      end
  end.

(** [app.get("/", ...)] *)
Definition get_root : M response :=
  ret {| status := 200; headers := []; sent := TextBody "OK" |}.

(** [app.get("/health", ...)] *)
Definition get_health : M response :=
  ret (json_response 200 (Js.Obj [("ok", Js.Bool true)])).

End Handlers.

End Primary.

(** ** The older server, [server.js] *)

Module Legacy.

(** One character of [/[^a-zA-Z0-9._-]/]: true when the character is kept. *)
Definition filename_char (a : ascii) : bool :=
  let n := nat_of_ascii a in
  ((97 <=? n) && (n <=? 122))%nat || ((65 <=? n) && (n <=? 90))%nat ||
  ((48 <=? n) && (n <=? 57))%nat ||
  Ascii.eqb a "."%char || Ascii.eqb a "_"%char || Ascii.eqb a "-"%char.

(** [safeTmp(name)] *)
Fixpoint safeTmp (name : string) : string :=
  match name with
  | EmptyString => EmptyString
  | String a rest =>
      String (if filename_char a then a else "_"%char) (safeTmp rest)
  end.

(** The filter graph of the single ffmpeg call. *)
Definition filter (outWidth outHeight : Js.value) : string :=
  "[0:v][1:v][2:v]concat=n=3:v=1:a=0," +:+
  "scale=" +:+ Js.to_string outWidth +:+ ":" +:+ Js.to_string outHeight +:+
  ":force_original_aspect_ratio=increase," +:+
  "crop=" +:+ Js.to_string outWidth +:+ ":" +:+ Js.to_string outHeight +:+ ",setsar=1[v]".

Definition args (v1 v2 v3 a1 out : string) (outWidth outHeight : Js.value) : list string :=
  [ "-y"; "-loglevel"; "error";
    "-stream_loop"; "-1"; "-i"; v1;
    "-stream_loop"; "-1"; "-i"; v2;
    "-stream_loop"; "-1"; "-i"; v3;
    "-i"; a1;
    "-filter_complex"; filter outWidth outHeight;
    "-map"; "[v]"; "-map"; "3:a"; "-shortest"; "-r"; "30";
    "-c:v"; "libx264"; "-preset"; "veryfast"; "-pix_fmt"; "yuv420p";
    "-c:a"; "aac"; "-b:a"; "192k"; "-movflags"; "+faststart"; out ].

(** [x = d] in a destructuring pattern: the default replaces undefined
    only. *)
Definition with_default (v d : Js.value) : Js.value :=
  match v with Js.Undefined => d | _ => v end.

Section Handlers.

Variable w : world.

(** [run(cmd, args)] *)
Definition run (cmd : string) (args : list string) : M unit :=
  let* evs := spawn_process w cmd args in
  await_promise (Proc.run_promise evs).

(** [downloadToFile(url, outPath)]; the url is passed to the program as the
    string it renders to. *)
Definition downloadToFile (url : Js.value) (outPath : string) : M unit :=
  run "ffmpeg" ["-y"; "-loglevel"; "error"; "-i"; Js.to_string url; "-c"; "copy"; outPath].

(** [fs.mkdtempSync(prefix)], with [suffix] the random characters it
    appends. *)
Definition mkdtempSync (prefix suffix : string) : M string :=
  let* _ := perform (EMkdtemp (prefix +:+ suffix)) in
  match disk w (prefix +:+ suffix) with
  | Some e => throw e
  | None => ret (prefix +:+ suffix)
  end.

(** [try { fs.rmSync(tmp, { recursive: true, force: true }); } catch {}] *)
Definition rm_tree (dir : string) : M unit :=
  let* _ := perform (ERmTree dir) in
  let* fs := get_files in
  set_files (base.filter (fun kv => negb (String.prefix (dir +:+ "/") (fst kv))) fs).

(** [app.post("/stitch", ...)] of [server.js]; [suffix] is the random part
    of the scratch directory's name. A read stream that fails has no
    ['error'] listener. *)
Definition post_stitch (req : request) (suffix : string) : M response :=
  try_catch
    (if unauthorized (API_KEY w) (req_api_key req) then
       ret (json_response 401 (Js.Obj [("error", Js.Str "Unauthorized")]))
     else if Js.nullish (req_body req) then
       throw {| e_name := "TypeError";
                e_message := "Cannot destructure property 'videos' of 'req.body' as it is " +:+
                             Js.to_string (req_body req) +:+ "." |}
     else
       let videos := Js.opt_prop (req_body req) "videos" in
       let narrationUrl := Js.opt_prop (req_body req) "narrationUrl" in
       let outWidth := with_default (Js.opt_prop (req_body req) "outWidth") (Js.Num 1080) in
       let outHeight := with_default (Js.opt_prop (req_body req) "outHeight") (Js.Num 1920) in
       if negb (Js.is_array videos) || negb (Nat.eqb (length (Js.elements videos)) 3) then
         ret (json_response 400
                (Js.Obj [("error", Js.Str "videos must be an array of exactly 3 URLs")]))
       else if negb (Js.truthy narrationUrl) || negb (Js.is_string narrationUrl) then
         ret (json_response 400 (Js.Obj [("error", Js.Str "narrationUrl is required")]))
       else
         let* tmp := mkdtempSync (path_join (tmpdir w) "stitch-") suffix in
         let v1 := path_join tmp (safeTmp "v1.mp4") in
         let v2 := path_join tmp (safeTmp "v2.mp4") in
         let v3 := path_join tmp (safeTmp "v3.mp4") in
         let a1 := path_join tmp (safeTmp "narration.mp3") in
         let out := path_join tmp (safeTmp "final.mp4") in
         let* _ := downloadToFile (Js.index (Js.elements videos) 0) v1 in
         let* _ := downloadToFile (Js.index (Js.elements videos) 1) v2 in
         let* _ := downloadToFile (Js.index (Js.elements videos) 2) v3 in
         let* _ := downloadToFile narrationUrl a1 in
         let* _ := run "ffmpeg" (args v1 v2 v3 a1 out outWidth outHeight) in
         let* _ := perform (ERead out) in
         let* fs := get_files in
         match fs !! out with
         | Some content =>
             let* _ := rm_tree tmp in
             ret {| status := 200;
                    headers := [("Content-Type", "video/mp4");
                                ("Content-Disposition",
                                 "attachment; filename=" +:+ dq +:+ "final.mp4" +:+ dq)];
                    sent := FileBody content |}
         | None => crash (mkError ("ENOENT: no such file or directory, open '" +:+ out +:+ "'"))
         end)
    (fun e => ret (json_response 500 (Js.Obj [("error", Js.Str (error_text e))]))).

(** [app.get("/", ...)] *)
Definition get_root : M response :=
  ret {| status := 200; headers := []; sent := TextBody "OK" |}.

(** [app.get("/health", ...)] *)
Definition get_health : M response :=
  ret (json_response 200 (Js.Obj [("ok", Js.Bool true)])).

End Handlers.

End Legacy.

(** ** The calls the event loop makes on the primary server *)

(** A tick of [setInterval(cleanupResults, 60 * 1000)] or a
    [GET /result/:id], each with the clock reading at the call. The
    retrieval handler does not read the clock. *)
Inductive call :=
| Sweep (now : Z)
| Retrieve (now : Z) (id : string).

Definition request_for (id : string) : request :=
  {| req_body := Js.Undefined; req_api_key := None; req_protocol := "http";
     req_host := None; req_id := id |}.

(** One call: the response, if the call has one, and the next state. *)
Definition serve (c : call) (st : state) : option (outcome response) * state :=
  match c with
  | Sweep now => (None, snd (Primary.cleanupResults now st))
  | Retrieve _ id =>
      (Some (fst (Primary.get_result (request_for id) st)),
       snd (Primary.get_result (request_for id) st))
  end.

(** A sequence of calls: the responses in order and the last state. *)
Fixpoint serve_all (cs : list call) (st : state)
  : list (outcome response) * state :=
  match cs with
  | [] => ([], st)
  | c :: rest =>
      let r := serve c st in
      let rs := serve_all rest (snd r) in
      (match fst r with Some o => o :: fst rs | None => fst rs end, snd rs)
  end.

(** The not-found response of the retrieval handler. *)
Definition not_found : outcome response :=
  Returned {| status := 404; headers := [];
              sent := TextBody "Not found (expired or missing)" |}.

(** ** Concrete worlds used to run the handlers *)

Module Demo.

Definition served (content : list string) : fetch_result :=
  FetchResponse {| http_status := 200;
                   http_body := Some {| chunks := content; failure := None |} |}.

(** A host on which [/missing.mp4] answers 404, [/empty.mp4] answers
    without a body, every other path is served in two chunks, and anything
    that is not an http(s) URL of that host makes [fetch] reject. *)
Definition cdn (url : string) : fetch_result :=
  if String.eqb url "http://cdn.test/missing.mp4" then
    FetchResponse {| http_status := 404;
                     http_body := Some {| chunks := ["gone"]; failure := None |} |}
  else if String.eqb url "http://cdn.test/empty.mp4" then
    FetchResponse {| http_status := 204; http_body := None |}
  else if String.prefix "http://cdn.test/" url || String.prefix "https://cdn.test/" url then
    served ["<" +:+ url; ">"]
  else
    FetchRejected {| e_name := "TypeError"; e_message := "fetch failed" |}.

(** An ffmpeg that writes its last argument and exits with code zero. *)
Definition ffmpeg_ok (cmd : string) (args : list string) (fs : gmap string string)
  : list Proc.event * gmap string string :=
  ([Proc.Close (Some 0) None], <[List.last args "" := "mp4"]> fs).

(** No ffmpeg binary: the spawn fails with ENOENT. *)
Definition enoent : Proc.spawn_error :=
  {| Proc.err_code := Some "ENOENT"; Proc.err_message := "spawn ffmpeg ENOENT" |}.

Definition ffmpeg_absent (cmd : string) (args : list string) (fs : gmap string string)
  : list Proc.event * gmap string string :=
  ([Proc.Error enoent; Proc.Close (Some (-2)) None], fs).

(** An ffmpeg killed by a signal after some diagnostics. *)
Definition ffmpeg_killed (cmd : string) (args : list string) (fs : gmap string string)
  : list Proc.event * gmap string string :=
  ([Proc.Stderr "frame=  120"; Proc.Close None (Some "SIGKILL")], fs).

Definition world_with
  (sp : string -> list string -> gmap string string -> list Proc.event * gmap string string)
  : world :=
  {| tmpdir := "/tmp"; API_KEY := ""; remote := cdn; disk := fun _ => None; spawn := sp |}.

Definition empty : state := {| results := ∅; files := ∅; trace := [] |}.

(** A store whose one entry points at a file that is not there. *)
Definition file_lost : state :=
  {| results := {[ "ab" := {| filePath := "/tmp/final_ab.mp4"; expiresAt := 1800000 |} ]};
     files := ∅; trace := [] |}.

(** The state in which the final mux of job [ab] has left its file and
    nothing is stored yet. *)
Definition muxed : state :=
  {| results := ∅; files := {[ "/tmp/final_ab.mp4" := "mp4" ]}; trace := [] |}.

(** The demo world with an API key configured. *)
Definition locked_world : world :=
  {| tmpdir := "/tmp"; API_KEY := "s3cret"; remote := cdn; disk := fun _ => None;
     spawn := ffmpeg_ok |}.


(** A body that delivers one chunk and is then interrupted, and a world in
    which every url answers with it and the disk refuses the second video
    of job [ab]. *)
Definition cut_body : body_stream :=
  {| chunks := ["first"]; failure := Some (mkError "terminated") |}.

Definition broken_world : world :=
  {| tmpdir := "/tmp"; API_KEY := "";
     remote := fun _ => FetchResponse {| http_status := 200; http_body := Some cut_body |};
     disk := fun p =>
       if String.eqb p "/tmp/v2_ab.mp4"
       then Some (mkError "ENOSPC: no space left on device, open '/tmp/v2_ab.mp4'")
       else None;
     spawn := fun _ _ fs => ([Proc.Close (Some 0) None], fs) |}.

Definition post (b : Js.value) : request :=
  {| req_body := b; req_api_key := None; req_protocol := "http";
     req_host := Some "stitcher.test"; req_id := "" |}.

Definition three (a b c : string) : Js.value := Js.Arr [Js.Str a; Js.Str b; Js.Str c].

(** A well-formed submission, and the state after the primary server has
    stitched it as job [ab] with the clock at 0. *)
Definition good_body : Js.value :=
  Js.Obj [("audioUrl", Js.Str "http://cdn.test/n.mp3");
          ("videoUrls", three "http://cdn.test/1.mp4" "http://cdn.test/2.mp4"
                              "http://cdn.test/3.mp4")].

(** A submission whose narration value begins with [http] without being a
    URL. *)
Definition odd_narration_body : Js.value :=
  Js.Obj [("audioUrl", Js.Str "httpfile.mp3");
          ("videoUrls", three "http://cdn.test/1.mp4" "http://cdn.test/2.mp4"
                              "http://cdn.test/3.mp4")].

(** A submission with a null [audioUrl] next to a [narrationUrl]. *)
Definition null_audio_body : Js.value :=
  Js.Obj [("audioUrl", Js.Null);
          ("narrationUrl", Js.Str "http://cdn.test/n.mp3");
          ("videoUrls", three "http://cdn.test/1.mp4" "http://cdn.test/2.mp4"
                              "http://cdn.test/3.mp4")].

(** A submission with a narration that is no http URL and only two
    videos, under the spellings both servers read. *)
Definition malformed_body : Js.value :=
  Js.Obj [("audioUrl", Js.Str "ftp://cdn.test/n.mp3");
          ("narrationUrl", Js.Str "ftp://cdn.test/n.mp3");
          ("videos", Js.Arr [Js.Str "http://cdn.test/1.mp4"; Js.Str "http://cdn.test/2.mp4"])].

(** The well-formed submission under the alternate spelling. *)
Definition alternate_body : Js.value :=
  Js.Obj [("narrationUrl", Js.Str "http://cdn.test/n.mp3");
          ("videos", three "http://cdn.test/1.mp4" "http://cdn.test/2.mp4"
                           "http://cdn.test/3.mp4")].

(** Scenario B: the second video answers 404. *)
Definition missing_video_body : Js.value :=
  Js.Obj [("audioUrl", Js.Str "http://cdn.test/n.mp3");
          ("videoUrls", three "http://cdn.test/1.mp4" "http://cdn.test/missing.mp4"
                              "http://cdn.test/3.mp4")].

(** A submission whose second video entry is null. *)
Definition null_video_body : Js.value :=
  Js.Obj [("audioUrl", Js.Str "http://cdn.test/n.mp3");
          ("videoUrls", Js.Arr [Js.Str "http://cdn.test/1.mp4"; Js.Null;
                                Js.Str "http://cdn.test/3.mp4"])].

Definition after_job : state :=
  snd (Primary.post_stitch (world_with ffmpeg_ok) (post good_body) "ab" 0 empty).

End Demo.

(** ** Auxiliary definitions of the statements about the result store *)

(** Some entry of [l] under the key [k] has expired at [now]. *)
Definition expired_in (now : Z) (k : string) (l : list (string * result_entry)) : bool :=
  existsb (fun kv => String.eqb (fst kv) k && (expiresAt (snd kv) <=? now)%Z) l.

Definition is_retrieve (c : call) : bool :=
  match c with Retrieve _ _ => true | Sweep _ => false end.

(** A sweep of the call, if it is one, runs before [deadline]. *)
Definition sweeps_before (deadline : Z) (c : call) : bool :=
  match c with Sweep now => (now <? deadline)%Z | Retrieve _ _ => true end.

(** The response that streams [content] as the artifact of job [id]. *)
Definition artifact_response (id content : string) : outcome response :=
  Returned {| status := 200;
              headers := [("Content-Type", "video/mp4");
                          ("Content-Disposition",
                           "attachment; filename=" +:+ dq +:+ "final_" +:+ id +:+ ".mp4" +:+ dq)];
              sent := FileBody content |}.

(** The store right after [results.set(id, { filePath: path, expiresAt: T +
    RESULT_TTL_MS })], that is, after a publication at time [T]. *)
Definition published (id path : string) (T : Z) (st : state) : state :=
  snd (Primary.results_set id {| filePath := path; expiresAt := T + Primary.RESULT_TTL_MS |} st).

(** ** Auxiliary definitions of the statements about validation *)

(** The value is not a string that begins with [http]. *)
Definition lacks_http_prefix (v : Js.value) : Prop :=
  forall s, v = Js.Str s -> String.prefix "http" s = false.

(** The value is not an array of exactly three elements. *)
Definition not_three (v : Js.value) : Prop :=
  forall l, v = Js.Arr l -> length l <> 3%nat.

(** The first element of the array [v] that is not a string beginning with
    [http] is a truthy value. *)
Definition first_offender_truthy (v : Js.value) : Prop :=
  exists pre bad post,
    v = Js.Arr (pre ++ bad :: post) /\
    (forall x, In x pre -> exists s, x = Js.Str s /\ String.prefix "http" s = true) /\
    lacks_http_prefix bad /\
    Js.truthy bad = true.

(** The narration and video values the primary handler reads off a body. *)
Definition audio_of (b : Js.value) : Js.value :=
  Js.coalesce (Js.opt_prop b "audioUrl") (Js.opt_prop b "narrationUrl").

Definition videos_of (b : Js.value) : Js.value :=
  Js.coalesce (Js.opt_prop b "videoUrls") (Js.opt_prop b "videos").

(** What the specification asks of a URL, in its weakest reading: the
    string begins with the scheme [http://] or [https://]. *)
Definition spec_has_http_scheme (s : string) : bool :=
  String.prefix "http://" s || String.prefix "https://" s.

(** A response of the submission handlers that reports a validation
    error. *)
Definition is_validation_error (o : outcome response) : Prop :=
  exists err, o = Returned (json_response 400 err).

(** ** Auxiliary definitions of the statements about the handlers' steps *)

(** [st'] was reached from [st] without touching the result store, by
    effects that all satisfy [allowed]. *)
Definition step_ok (allowed : effect -> bool) (st st' : state) : Prop :=
  results st' = results st /\
  exists t, trace st' = trace st ++ t /\ forallb allowed t = true.

(** Every run of [m] is such a step, and what it returns satisfies [R]. *)
Definition obeys {A} (allowed : effect -> bool) (m : M A) (R : A -> Prop) : Prop :=
  forall st, step_ok allowed st (snd (m st)) /\
             forall a, fst (m st) = Returned a -> R a.

Definition no_store (e : effect) : bool :=
  match e with EStore _ => false | _ => true end.

Definition no_unlink (e : effect) : bool :=
  match e with EUnlink _ | ERmTree _ => false | _ => true end.

(** The handler did not answer 200: it answered with another status, or
    not at all. *)
Definition not_ok (o : outcome response) : Prop :=
  forall resp, o = Returned resp -> status resp <> 200%Z.

(** Every run of [m] either ends without a 200 answer after a step of
    allowed effects that leaves the store alone, or ends in a way [Good]
    describes. *)
Definition staged (allowed : effect -> bool)
  (Good : state -> outcome response -> state -> Prop) (m : M response) : Prop :=
  forall st,
    (not_ok (fst (m st)) /\ step_ok allowed st (snd (m st))) \/
    Good st (fst (m st)) (snd (m st)).

(** The scratch paths of job [id] in the primary server. *)
Definition narrPath (w : world) (id : string) : string :=
  path_join (tmpdir w) ("narr_" +:+ id +:+ ".mp3").

Definition basePath (w : world) (id : string) : string :=
  path_join (tmpdir w) ("base_" +:+ id +:+ ".mp4").

Definition outPath (w : world) (id : string) : string :=
  path_join (tmpdir w) ("final_" +:+ id +:+ ".mp4").

(** The handler answered 200 having stored exactly the entry of job [id],
    and the store was written right after the final mux was spawned, its
    promise resolved and the base clip deleted; nothing else, before or
    after, wrote to the store. *)
Definition published_after_mux (w : world) (id : string) (now : Z)
  (st : state) (o : outcome response) (st' : state) : Prop :=
  (exists resp, o = Returned resp /\ status resp = 200%Z) /\
  results st' =
    <[id := {| filePath := outPath w id; expiresAt := now + Primary.RESULT_TTL_MS |}]>
      (results st) /\
  exists t1 t2,
    trace st' =
      trace st ++ t1 ++
      [ESpawn "ffmpeg" (Primary.finalArgs (basePath w id) (narrPath w id) (outPath w id));
       EAwait Proc.Resolved; EUnlink (basePath w id); EStore id] ++ t2 /\
    forallb no_store t1 = true /\ forallb no_store t2 = true.

(** The handler answered 200. *)
Definition answered_ok (st : state) (o : outcome response) (st' : state) : Prop :=
  exists resp, o = Returned resp /\ status resp = 200%Z.

(** Some entry of [l] that has expired at [now] points at the file [p]. *)
Definition expired_file_in (now : Z) (p : string) (l : list (string * result_entry)) : bool :=
  existsb (fun kv => String.eqb (filePath (snd kv)) p && (expiresAt (snd kv) <=? now)%Z) l.

(** What an [await] on a promise in each state amounts to. *)
Definition await_outcome (p : Proc.promise) : outcome unit :=
  match p with
  | Proc.Resolved => Returned tt
  | Proc.Rejected msg => Threw (mkError msg)
  | Proc.Pending => Hung
  | Proc.Uncaught e => Crashed (mkError (Proc.err_message e))
  end.

(** ** Auxiliary definitions of the statements about scratch files *)

(** The scratch paths of job [id] that the primary handler writes itself. *)
Definition v1Path (w : world) (id : string) : string :=
  path_join (tmpdir w) ("v1_" +:+ id +:+ ".mp4").

Definition v2Path (w : world) (id : string) : string :=
  path_join (tmpdir w) ("v2_" +:+ id +:+ ".mp4").

Definition v3Path (w : world) (id : string) : string :=
  path_join (tmpdir w) ("v3_" +:+ id +:+ ".mp4").

Definition listPath (w : world) (id : string) : string :=
  path_join (tmpdir w) ("list_" +:+ id +:+ ".txt").

(** The five files the handler creates for a job. *)
Definition created_paths (w : world) (id : string) : list string :=
  [v1Path w id; v2Path w id; v3Path w id; narrPath w id; listPath w id].

(** The six files the handler deletes on its success path. *)
Definition scratch_inputs (w : world) (id : string) : list string :=
  [v1Path w id; v2Path w id; v3Path w id; narrPath w id; listPath w id; basePath w id].

(** Every path that carries the identifier of a job. *)
Definition job_paths (w : world) (id : string) : list string :=
  scratch_inputs w id ++ [outPath w id].

(** An event of the trace that stays within job [id]: a file created or
    deleted is one of the job's, a store is under its identifier, a spawn
    is ffmpeg with the base or the final argument list of the job; the
    primary handler makes no directory, removes none and reads no file. *)
Definition own_effect (w : world) (id : string) (e : effect) : bool :=
  match e with
  | EFetch _ | EAwait _ => true
  | ECreate p => bool_decide (p ∈ created_paths w id)
  | EUnlink p => bool_decide (p ∈ scratch_inputs w id)
  | EStore i => bool_decide (i = id)
  | ESpawn c a =>
      bool_decide (c = "ffmpeg" /\
                   (a = Primary.baseArgs (listPath w id) (basePath w id) \/
                    a = Primary.finalArgs (basePath w id) (narrPath w id) (outPath w id)))
  | EMkdtemp _ | ERmTree _ | ERead _ => false
  end.

Definition no_spawn (e : effect) : bool :=
  match e with ESpawn _ _ => false | _ => true end.

Definition any_effect (e : effect) : bool := true.

(** The remote answered [url] with a success status and a body that ended
    without error, and the disk accepted the file at [path]. *)
Definition fetched_ok (w : world) (url : Js.value) (path : string) : Prop :=
  exists res b,
    remote w (Js.to_string url) = FetchResponse res /\
    http_ok res = true /\
    http_body res = Some b /\
    failure b = None /\
    disk w path = None.

(** Every entry of the store points at the final file of its own
    identifier, as the primary handler names it. *)
Definition well_keyed (w : world) (st : state) : Prop :=
  forall id m, results st !! id = Some m -> filePath m = outPath w id.

(** Every answer that [m] returns satisfies [P]. *)
Definition answers (P : response -> Prop) (m : M response) : Prop :=
  forall st resp, fst (m st) = Returned resp -> P resp.

(** Every character of [s] satisfies [p]. *)
Fixpoint all_chars (p : ascii -> bool) (s : string) : bool :=
  match s with
  | EmptyString => true
  | String a rest => p a && all_chars p rest
  end.

(** The 200 answer of the primary submission handler for job [id]. *)
Definition submitted (req : request) (id : string) : response :=
  json_response 200
    (Js.Obj [("ok", Js.Bool true);
             ("resultUrl",
              Js.Str ((req_protocol req +:+ "://" +:+
                       Js.to_string (match req_host req with
                                     | Some h => Js.Str h
                                     | None => Js.Undefined
                                     end)) +:+ "/result/" +:+ id));
             ("id", Js.Str id)]).


(** The primary handler answered job [id] with its 200 answer, stored its
    entry, and none of the six scratch inputs is left. *)
Definition success_state (w : world) (req : request) (id : string) (now : Z)
  (st : state) (o : outcome response) (st' : state) : Prop :=
  o = Returned (submitted req id) /\
  results st' =
    <[id := {| filePath := outPath w id; expiresAt := now + Primary.RESULT_TTL_MS |}]>
      (results st) /\
  forall p, p ∈ scratch_inputs w id -> files st' !! p = None.

(** The handler answered, and every event since [st] stays within job
    [id]. *)
Definition own_run (w : world) (id : string)
  (st : state) (o : outcome response) (st' : state) : Prop :=
  (exists resp, o = Returned resp) /\
  exists t, trace st' = trace st ++ t /\ forallb (own_effect w id) t = true.

(** All four inputs of a submission were fetched completely into the
    scratch files of job [id]. *)
Definition inputs_fetched (w : world) (req : request) (id : string) : Prop :=
  fetched_ok w (Js.index (Js.elements (videos_of (req_body req))) 0) (v1Path w id) /\
  fetched_ok w (Js.index (Js.elements (videos_of (req_body req))) 1) (v2Path w id) /\
  fetched_ok w (Js.index (Js.elements (videos_of (req_body req))) 2) (v3Path w id) /\
  fetched_ok w (audio_of (req_body req)) (narrPath w id).


(** ** Auxiliary definitions of the statements about the concat list file *)







(** * Theorems *)

(** ** Facts about the concat list file *)

Lemma append_cons (a : ascii) (s t : string) :
  String a s +:+ t = String a (s +:+ t).
Proof. reflexivity. Qed.

Lemma append_nil_l (t : string) : "" +:+ t = t.
Proof. reflexivity. Qed.

Lemma append_assoc' (r s t : string) : (r +:+ s) +:+ t = r +:+ (s +:+ t).
Proof.
  induction r as [|b r IHr]; [reflexivity|].
  now rewrite !append_cons, IHr.
Qed.






(** ** The subprocess invoker *)

Lemma append_nil_r (s : string) : s +:+ "" = s.
Proof. induction s as [|a s IH]; [reflexivity|]. now rewrite append_cons, IH. Qed.

Lemma emit_output_runFFmpeg (ev : Proc.event) (s : Proc.run_state) :
  Proc.is_output ev = true ->
  Proc.settled s = Proc.Pending ->
  Proc.emit Proc.runFFmpeg_listeners s ev =
  {| Proc.stdout := Proc.stdout s +:+ Proc.stdout_of [ev];
     Proc.stderr := Proc.stderr s +:+ Proc.stderr_of [ev];
     Proc.settled := Proc.Pending |}.
Proof.
  intros Hev Hs. destruct s as [o e p]. simpl in Hs. subst p.
  destruct ev as [d|d|err|c sg]; try discriminate; cbn;
    unfold Proc.add_stdout, Proc.add_stderr; cbn;
    rewrite !append_nil_r; reflexivity.
Qed.

Lemma stdout_of_cons_output ev evs :
  Proc.stdout_of (ev :: evs) = Proc.stdout_of [ev] +:+ Proc.stdout_of evs.
Proof. destruct ev; cbn; rewrite ?append_nil_r; reflexivity. Qed.

Lemma stderr_of_cons_output ev evs :
  Proc.stderr_of (ev :: evs) = Proc.stderr_of [ev] +:+ Proc.stderr_of evs.
Proof. destruct ev; cbn; rewrite ?append_nil_r; reflexivity. Qed.

(** While only output arrives, [runFFmpeg] accumulates it and stays
    pending. *)
Lemma drive_output_runFFmpeg (out : list Proc.event) (s : Proc.run_state) :
  forallb Proc.is_output out = true ->
  Proc.settled s = Proc.Pending ->
  fold_left (Proc.emit Proc.runFFmpeg_listeners) out s =
  {| Proc.stdout := Proc.stdout s +:+ Proc.stdout_of out;
     Proc.stderr := Proc.stderr s +:+ Proc.stderr_of out;
     Proc.settled := Proc.Pending |}.
Proof.
  revert s. induction out as [|ev out IH]; intros s Hout Hs.
  - cbn. rewrite !append_nil_r. destruct s; simpl in *; now subst.
  - cbn [forallb] in Hout. apply andb_true_iff in Hout as [Hev Hout].
    cbn [fold_left]. rewrite (emit_output_runFFmpeg ev s Hev Hs).
    rewrite IH; [|assumption|reflexivity]. cbn [Proc.stdout Proc.stderr].
    rewrite (stdout_of_cons_output ev out), (stderr_of_cons_output ev out).
    now rewrite !append_assoc'.
Qed.

(** The same for [run], which keeps stderr only. *)
Lemma drive_output_run (out : list Proc.event) (s : Proc.run_state) :
  forallb Proc.is_output out = true ->
  Proc.settled s = Proc.Pending ->
  fold_left (Proc.emit Proc.run_listeners) out s =
  {| Proc.stdout := Proc.stdout s;
     Proc.stderr := Proc.stderr s +:+ Proc.stderr_of out;
     Proc.settled := Proc.Pending |}.
Proof.
  revert s. induction out as [|ev out IH]; intros s Hout Hs.
  - cbn. rewrite !append_nil_r. destruct s; simpl in *; now subst.
  - cbn [forallb] in Hout. apply andb_true_iff in Hout as [Hev Hout].
    cbn [fold_left]. destruct s as [o e p]. simpl in Hs. subst p.
    destruct ev as [d|d|err|c sg]; try discriminate; cbn.
    + rewrite IH; [|assumption|reflexivity]. reflexivity.
    + unfold Proc.add_stderr. cbn. rewrite IH; [|assumption|reflexivity].
      cbn. now rewrite append_assoc'.
Qed.

(** A promise settled by [resolve] or [reject] keeps its value whatever the
    process emits afterwards, under either invoker's listeners but for the
    uncaught ['error'] of [run]. *)
Lemma settled_stable_runFFmpeg (evs : list Proc.event) (s : Proc.run_state) :
  Proc.settled s <> Proc.Pending ->
  Proc.settled (fold_left (Proc.emit Proc.runFFmpeg_listeners) evs s) = Proc.settled s.
Proof.
  revert s. induction evs as [|ev evs IH]; intros s Hs; [reflexivity|].
  cbn [fold_left]. rewrite IH.
  - destruct s as [o e p]. simpl in Hs.
    destruct p; try congruence; destruct ev as [d|d|err|c sg]; cbn;
      try reflexivity; destruct (Proc.is_zero c); reflexivity.
  - destruct s as [o e p]. simpl in Hs.
    destruct p; try congruence; destruct ev as [d|d|err|c sg]; cbn;
      try congruence; destruct (Proc.is_zero c); cbn; congruence.
Qed.

Lemma uncaught_stable (ls : Proc.listeners) (evs : list Proc.event) (s : Proc.run_state) e :
  Proc.settled s = Proc.Uncaught e ->
  Proc.settled (fold_left (Proc.emit ls) evs s) = Proc.Uncaught e.
Proof.
  revert s. induction evs as [|ev evs IH]; intros s Hs; [assumption|].
  cbn [fold_left]. apply IH. unfold Proc.emit. now rewrite Hs.
Qed.

(** [runFFmpeg]: a process that cannot be started rejects with the launch
    error, its code included, whatever is emitted afterwards. *)
Lemma runFFmpeg_launch_failure (e : Proc.spawn_error) (rest : list Proc.event) :
  Proc.runFFmpeg_promise (Proc.Error e :: rest) =
  Proc.Rejected ("spawn ffmpeg failed: " +:+ Proc.code_or_empty e +:+ " " +:+ Proc.err_message e).
Proof.
  unfold Proc.runFFmpeg_promise, Proc.drive. cbn [fold_left].
  rewrite settled_stable_runFFmpeg; [reflexivity|]. cbn. discriminate.
Qed.

(** [runFFmpeg]: a started process resolves exactly on exit code zero, and
    otherwise rejects with the code, the signal and the whole captured
    output. *)
Lemma runFFmpeg_close (out rest : list Proc.event) (code : option Z) (sg : option string) :
  forallb Proc.is_output out = true ->
  Proc.runFFmpeg_promise (out ++ Proc.Close code sg :: rest) =
  if Proc.is_zero code then Proc.Resolved
  else Proc.Rejected
         ("ffmpeg exited code=" +:+ Proc.show_code code +:+
          " signal=" +:+ Proc.show_signal sg +:+ nl +:+
          "STDERR:" +:+ nl +:+ Proc.stderr_of out +:+ nl +:+
          "STDOUT:" +:+ nl +:+ Proc.stdout_of out).
Proof.
  intros Hout. unfold Proc.runFFmpeg_promise, Proc.drive.
  rewrite fold_left_app, (drive_output_runFFmpeg out Proc.init Hout eq_refl).
  cbn [fold_left]. rewrite settled_stable_runFFmpeg.
  - cbn. destruct (Proc.is_zero code); reflexivity.
  - cbn. destruct (Proc.is_zero code); cbn; discriminate.
Qed.

(** [run]: the same classification by exit code, with the exit code and
    stderr in the message; the signal is not read. *)
Lemma run_close (out : list Proc.event) (code : option Z) (sg : option string) :
  forallb Proc.is_output out = true ->
  Proc.run_promise (out ++ [Proc.Close code sg]) =
  if Proc.is_zero code then Proc.Resolved
  else Proc.Rejected ("Command failed (" +:+ Proc.show_code code +:+ "): " +:+ Proc.stderr_of out).
Proof.
  intros Hout. unfold Proc.run_promise, Proc.drive.
  rewrite fold_left_app, (drive_output_run out Proc.init Hout eq_refl).
  cbn. destruct (Proc.is_zero code); reflexivity.
Qed.

(** [run]: the ['error'] event of a process that cannot be started finds no
    listener. *)
Lemma run_launch_failure (e : Proc.spawn_error) (rest : list Proc.event) :
  Proc.run_promise (Proc.Error e :: rest) = Proc.Uncaught e.
Proof.
  unfold Proc.run_promise, Proc.drive. cbn [fold_left].
  now apply uncaught_stable.
Qed.

(** ** Reasoning about computations of the handlers' monad *)

Lemma step_ok_refl allowed st : step_ok allowed st st.
Proof. split; [reflexivity|]. exists []. split; [now rewrite app_nil_r|reflexivity]. Qed.

Lemma step_ok_trans allowed st1 st2 st3 :
  step_ok allowed st1 st2 -> step_ok allowed st2 st3 -> step_ok allowed st1 st3.
Proof.
  intros [Hr1 (t1 & Ht1 & Ha1)] [Hr2 (t2 & Ht2 & Ha2)]. split; [congruence|].
  exists (t1 ++ t2). split.
  - now rewrite Ht2, Ht1, app_assoc.
  - rewrite forallb_app. now rewrite Ha1, Ha2.
Qed.

Section Obeys.

Variable allowed : effect -> bool.

Lemma obeys_ret {A} (a : A) (R : A -> Prop) : R a -> obeys allowed (ret a) R.
Proof.
  intros Ha st. split; [apply step_ok_refl|].
  cbn. intros ? [= <-]. exact Ha.
Qed.

Lemma obeys_throw {A} (e : js_error) (R : A -> Prop) : obeys allowed (throw e) R.
Proof. intros st. split; [apply step_ok_refl|]. cbn. discriminate. Qed.

Lemma obeys_hang {A} (R : A -> Prop) : obeys allowed (@hang A) R.
Proof. intros st. split; [apply step_ok_refl|]. cbn. discriminate. Qed.

Lemma obeys_crash {A} (e : js_error) (R : A -> Prop) : obeys allowed (crash e) R.
Proof. intros st. split; [apply step_ok_refl|]. cbn. discriminate. Qed.

Lemma obeys_bind {A B} (m : M A) (k : A -> M B) (R : A -> Prop) (S : B -> Prop) :
  obeys allowed m R ->
  (forall a, R a -> obeys allowed (k a) S) ->
  obeys allowed (bind m k) S.
Proof.
  intros Hm Hk st. unfold bind.
  destruct (Hm st) as [Hstep Hret].
  destruct (m st) as [[a|e| |e] st1]; cbn in *; try (split; [assumption|discriminate]).
  destruct (Hk a (Hret a eq_refl) st1) as [Hstep' Hret'].
  split; [eapply step_ok_trans; eassumption|assumption].
Qed.

Lemma obeys_weaken {A} (m : M A) (R S : A -> Prop) :
  obeys allowed m R -> (forall a, R a -> S a) -> obeys allowed m S.
Proof. intros Hm HRS st. destruct (Hm st) as [H1 H2]. split; auto. Qed.

Lemma obeys_perform (e : effect) : allowed e = true -> obeys allowed (perform e) (fun _ => True).
Proof.
  intros He st. split; [|trivial]. split; [reflexivity|].
  exists [e]. cbn. split; [reflexivity|]. now rewrite He.
Qed.

Lemma obeys_get_files : obeys allowed get_files (fun _ => True).
Proof. intros st. split; [apply step_ok_refl|trivial]. Qed.

Lemma obeys_set_files f : obeys allowed (set_files f) (fun _ => True).
Proof.
  intros st. split; [|trivial]. split; [reflexivity|].
  exists []. cbn. now rewrite app_nil_r.
Qed.

Lemma obeys_unlink_quiet p :
  allowed (EUnlink p) = true -> obeys allowed (unlink_quiet p) (fun _ => True).
Proof.
  intros He. unfold unlink_quiet.
  eapply obeys_bind; [apply obeys_perform, He|]. intros _ _.
  eapply obeys_bind; [apply obeys_get_files|]. intros fs _.
  apply obeys_set_files.
Qed.

Lemma obeys_create_file w p content :
  allowed (ECreate p) = true -> obeys allowed (create_file w p content) (fun _ => True).
Proof.
  intros He. unfold create_file.
  eapply obeys_bind; [apply obeys_perform, He|]. intros _ _.
  destruct (disk w p); [apply obeys_throw|].
  eapply obeys_bind; [apply obeys_get_files|]. intros fs _.
  apply obeys_set_files.
Qed.

Lemma obeys_await_promise p :
  allowed (EAwait p) = true -> obeys allowed (await_promise p) (fun _ => p = Proc.Resolved).
Proof.
  intros He. unfold await_promise.
  eapply obeys_bind; [apply obeys_perform, He|]. intros _ _.
  destruct p; [apply obeys_hang|now apply obeys_ret|apply obeys_throw|apply obeys_crash].
Qed.

Lemma obeys_spawn_process w cmd args :
  allowed (ESpawn cmd args) = true -> obeys allowed (spawn_process w cmd args) (fun _ => True).
Proof.
  intros He. unfold spawn_process.
  eapply obeys_bind; [apply obeys_perform, He|]. intros _ _.
  eapply obeys_bind; [apply obeys_get_files|]. intros fs _.
  eapply obeys_bind; [apply obeys_set_files|]. intros _ _.
  now apply obeys_ret.
Qed.

End Obeys.

(** ** The resource fetcher *)

(** C8. [downloadToTmp] throws, and so reports no success, whenever the
    remote answers with a status outside 200..299 or with no body, leaving
    the scratch files as they were; and whenever it returns, it returns the
    destination path, the remote answered with a success status and a body
    that ended without error, and the destination file holds all the
    chunks of that body. *)
Theorem downloadToTmp_contract (w : world) (url : Js.value) (filename : string) (st : state) :
  (forall res, remote w (Js.to_string url) = FetchResponse res ->
               http_ok res = false ->
     fst (Primary.downloadToTmp w url filename st) =
       Threw (mkError ("Failed to download " +:+ Js.to_string url +:+
                       " (HTTP " +:+ pretty (http_status res) +:+ ")")) /\
     files (snd (Primary.downloadToTmp w url filename st)) = files st) /\
  (forall res, remote w (Js.to_string url) = FetchResponse res ->
               http_body res = None ->
     (exists e, fst (Primary.downloadToTmp w url filename st) = Threw e) /\
     files (snd (Primary.downloadToTmp w url filename st)) = files st) /\
  (forall p, fst (Primary.downloadToTmp w url filename st) = Returned p ->
     p = path_join (tmpdir w) filename /\
     exists res b,
       remote w (Js.to_string url) = FetchResponse res /\
       http_ok res = true /\
       http_body res = Some b /\
       failure b = None /\
       files (snd (Primary.downloadToTmp w url filename st)) !! p =
         Some (String.concat "" (chunks b))).
Proof.
  unfold Primary.downloadToTmp, Primary.pipeline, create_file, bind, perform,
    get_files, set_files, throw, ret.
  split; [|split].
  - intros res Hres Hok. rewrite Hres, Hok. cbn. split; reflexivity.
  - intros res Hres Hb. rewrite Hres.
    destruct (http_ok res); cbn; rewrite ?Hb; split; eauto.
  - intros p. destruct (remote w (Js.to_string url)) as [e|res]; [discriminate|].
    destruct (http_ok res) eqn:Hok; [|discriminate]. cbn.
    destruct (http_body res) as [b|] eqn:Hb; [|discriminate].
    destruct (disk w _); [discriminate|]. cbn.
    destruct (failure b) eqn:Hf; [discriminate|]. cbn. intros [= <-].
    split; [reflexivity|]. exists res, b.
    repeat (split; [first [assumption|reflexivity]|]).
    apply lookup_insert_eq.
Qed.

Lemma downloadToTmp_contract_witness :
  fst (Primary.downloadToTmp (Demo.world_with Demo.ffmpeg_ok)
         (Js.Str "http://cdn.test/missing.mp4") "v1_ab.mp4" Demo.empty) =
    Threw (mkError "Failed to download http://cdn.test/missing.mp4 (HTTP 404)") /\
  (exists e, fst (Primary.downloadToTmp (Demo.world_with Demo.ffmpeg_ok)
                    (Js.Str "http://cdn.test/empty.mp4") "v1_ab.mp4" Demo.empty) = Threw e) /\
  files (snd (Primary.downloadToTmp (Demo.world_with Demo.ffmpeg_ok)
                (Js.Str "http://cdn.test/a.mp4") "v1_ab.mp4" Demo.empty))
    !! "/tmp/v1_ab.mp4" = Some "<http://cdn.test/a.mp4>".
Proof.
  split; [|split].
  - apply (proj1 (downloadToTmp_contract (Demo.world_with Demo.ffmpeg_ok)
                    (Js.Str "http://cdn.test/missing.mp4") "v1_ab.mp4" Demo.empty)
             {| http_status := 404;
                http_body := Some {| chunks := ["gone"]; failure := None |} |});
      reflexivity.
  - apply (proj1 (proj2 (downloadToTmp_contract (Demo.world_with Demo.ffmpeg_ok)
                    (Js.Str "http://cdn.test/empty.mp4") "v1_ab.mp4" Demo.empty))
             {| http_status := 204; http_body := None |});
      reflexivity.
  - destruct (proj2 (proj2 (downloadToTmp_contract (Demo.world_with Demo.ffmpeg_ok)
                    (Js.Str "http://cdn.test/a.mp4") "v1_ab.mp4" Demo.empty))
               "/tmp/v1_ab.mp4" eq_refl) as [_ (res & b & Hres & _ & Hb & _ & Hfile)].
    rewrite Hfile. injection Hres as <-. injection Hb as <-. reflexivity.
Defined.

(** ** The result store *)

Lemma sweep_fold_lookup (now : Z) (l : list (string * result_entry)) (st : state) (k : string) :
  results (fold_left (Primary.cleanup_entry now) l st) !! k =
  if expired_in now k l then None else results st !! k.
Proof.
  revert st. induction l as [|[k' m] l IH]; intros st; [reflexivity|].
  cbn [fold_left expired_in existsb fst snd]. rewrite IH. fold (expired_in now k l).
  unfold Primary.cleanup_entry. cbn [fst snd].
  destruct (expired_in now k l); [now rewrite orb_true_r|]. rewrite orb_false_r.
  destruct (expiresAt m <=? now)%Z; cbn [results].
  - destruct (String.eqb_spec k' k) as [->|Hne]; cbn.
    + apply lookup_delete_eq.
    + now apply lookup_delete_ne.
  - now rewrite andb_false_r.
Qed.

(** What a sweep leaves of the store: exactly the entries whose expiry is
    after the sweep's clock reading. *)
Lemma cleanupResults_lookup (now : Z) (st : state) (k : string) :
  results (snd (Primary.cleanupResults now st)) !! k =
  match results st !! k with
  | Some m => if (expiresAt m <=? now)%Z then None else Some m
  | None => None
  end.
Proof.
  unfold Primary.cleanupResults. cbn [snd]. rewrite sweep_fold_lookup.
  destruct (expired_in now k (map_to_list (results st))) eqn:E.
  - apply existsb_exists in E as ([k' m] & Hin & Hkm). cbn in Hkm.
    apply andb_true_iff in Hkm as [Hk Hm]. apply String.eqb_eq in Hk. subst k'.
    apply list_elem_of_In, elem_of_map_to_list in Hin. now rewrite Hin, Hm.
  - destruct (results st !! k) as [m|] eqn:Hk; [|reflexivity].
    destruct (expiresAt m <=? now)%Z eqn:Hm; [|reflexivity].
    assert (expired_in now k (map_to_list (results st)) = true) as E'; [|congruence].
    apply existsb_exists. exists (k, m). split.
    + now apply list_elem_of_In, elem_of_map_to_list.
    + cbn. now rewrite String.eqb_refl, Hm.
Qed.

Lemma sweep_fold_files (now : Z) (l : list (string * result_entry)) (st : state) (p : string) :
  files (fold_left (Primary.cleanup_entry now) l st) !! p =
  if expired_file_in now p l then None else files st !! p.
Proof.
  revert st. induction l as [|[k m] l IH]; intros st; [reflexivity|].
  cbn [fold_left expired_file_in existsb fst snd]. rewrite IH.
  fold (expired_file_in now p l).
  unfold Primary.cleanup_entry. cbn [fst snd].
  destruct (expired_file_in now p l); [now rewrite orb_true_r|]. rewrite orb_false_r.
  destruct (expiresAt m <=? now)%Z; cbn [files].
  - destruct (String.eqb_spec (filePath m) p) as [->|Hne]; cbn.
    + apply lookup_delete_eq.
    + now apply lookup_delete_ne.
  - now rewrite andb_false_r.
Qed.

Lemma get_result_frame (req : request) (st : state) :
  results (snd (Primary.get_result req st)) = results st /\
  files (snd (Primary.get_result req st)) = files st.
Proof.
  unfold Primary.get_result, Primary.results_get, bind, perform, get_files, ret.
  cbn. destruct (results st !! req_id req) as [meta|]; cbn; [|auto].
  destruct (files st !! filePath meta); cbn; auto.
Qed.

Lemma get_result_absent (req : request) (st : state) :
  results st !! req_id req = None ->
  fst (Primary.get_result req st) = not_found.
Proof.
  intros H. unfold Primary.get_result, Primary.results_get, bind, ret. cbn.
  now rewrite H.
Qed.

Lemma get_result_present (req : request) (st : state) (meta : result_entry) :
  results st !! req_id req = Some meta ->
  fst (Primary.get_result req st) <> not_found /\
  forall content, files st !! filePath meta = Some content ->
    fst (Primary.get_result req st) = artifact_response (req_id req) content.
Proof.
  intros H. unfold Primary.get_result, Primary.results_get, bind, perform, get_files, ret.
  cbn. rewrite H. cbn. split.
  - destruct (files st !! filePath meta); cbn; discriminate.
  - intros content Hc. now rewrite Hc.
Qed.

Lemma serve_all_app (cs cs' : list call) (st : state) :
  snd (serve_all (cs ++ cs') st) = snd (serve_all cs' (snd (serve_all cs st))).
Proof.
  revert st. induction cs as [|c cs IH]; intros st; [reflexivity|].
  cbn. now rewrite IH.
Qed.

Lemma serve_keeps_live (c : call) (st : state) (id : string) (meta : result_entry) :
  sweeps_before (expiresAt meta) c = true ->
  results st !! id = Some meta ->
  results (snd (serve c st)) !! id = Some meta.
Proof.
  intros Hc Hid. destruct c as [now|now id']; cbn [serve snd].
  - rewrite cleanupResults_lookup, Hid. cbn in Hc.
    apply Z.ltb_lt in Hc. now rewrite (proj2 (Z.leb_gt _ _) Hc).
  - now rewrite (proj1 (get_result_frame _ _)).
Qed.

Lemma serve_all_keeps_live (cs : list call) (st : state) (id : string) (meta : result_entry) :
  forallb (sweeps_before (expiresAt meta)) cs = true ->
  results st !! id = Some meta ->
  results (snd (serve_all cs st)) !! id = Some meta.
Proof.
  revert st. induction cs as [|c cs IH]; intros st Hcs Hid; [assumption|].
  cbn [forallb] in Hcs. apply andb_true_iff in Hcs as [Hc Hcs].
  cbn. apply IH; [assumption|]. now apply serve_keeps_live.
Qed.

Lemma serve_all_keeps_absent (cs : list call) (st : state) (id : string) :
  results st !! id = None ->
  results (snd (serve_all cs st)) !! id = None.
Proof.
  revert st. induction cs as [|c cs IH]; intros st Hid; [assumption|].
  cbn. apply IH. destruct c as [now|now id']; cbn [serve snd].
  - now rewrite cleanupResults_lookup, Hid.
  - now rewrite (proj1 (get_result_frame _ _)).
Qed.

(** Sweeps and retrievals only ever remove entries: an entry found
    afterwards was there before, unchanged. *)
Lemma serve_all_lookup_was (cs : list call) (st : state) (id : string) (m : result_entry) :
  results (snd (serve_all cs st)) !! id = Some m ->
  results st !! id = Some m.
Proof.
  revert st. induction cs as [|c cs IH]; intros st H; [assumption|].
  cbn in H. apply IH in H. destruct c as [now|now id']; cbn [serve snd] in H.
  - rewrite cleanupResults_lookup in H.
    destruct (results st !! id) as [m'|]; [|discriminate].
    destruct (expiresAt m' <=? now)%Z; [discriminate|assumption].
  - now rewrite (proj1 (get_result_frame _ _)) in H.
Qed.

Lemma published_lookup (id path : string) (T : Z) (st : state) :
  results (published id path T st) !! id =
  Some {| filePath := path; expiresAt := T + Primary.RESULT_TTL_MS |}.
Proof. apply lookup_insert_eq. Qed.

(** A file that only the entry of [id] points at outlives every sweep that
    runs before that entry expires. *)
Lemma serve_all_keeps_file (cs : list call) (st : state) (id : string)
  (meta : result_entry) (content : string) :
  forallb (sweeps_before (expiresAt meta)) cs = true ->
  results st !! id = Some meta ->
  files st !! filePath meta = Some content ->
  (forall k m, results st !! k = Some m -> filePath m = filePath meta -> k = id) ->
  results (snd (serve_all cs st)) !! id = Some meta /\
  files (snd (serve_all cs st)) !! filePath meta = Some content.
Proof.
  revert st. induction cs as [|c cs IH]; intros st Hcs Hid Hfile Hsole; [auto|].
  cbn [forallb] in Hcs. apply andb_true_iff in Hcs as [Hc Hcs].
  cbn [serve_all fst snd]. apply IH; [assumption| | |].
  - now apply serve_keeps_live.
  - destruct c as [now|now id']; cbn [serve snd].
    + unfold Primary.cleanupResults. cbn [snd]. rewrite sweep_fold_files.
      destruct (expired_file_in now (filePath meta) (map_to_list (results st))) eqn:X;
        [|assumption].
      exfalso. apply existsb_exists in X as ([k m] & Hin & Hkm). cbn in Hkm.
      apply andb_true_iff in Hkm as [Hp Hexp]. apply String.eqb_eq in Hp.
      apply list_elem_of_In, elem_of_map_to_list in Hin.
      pose proof (Hsole k m Hin Hp) as ->. rewrite Hid in Hin. injection Hin as <-.
      cbn in Hc. apply Z.ltb_lt in Hc. apply Z.leb_le in Hexp. lia.
    + now rewrite (proj2 (get_result_frame _ _)).
  - intros k m Hk. apply Hsole.
    destruct c as [now|now id']; cbn [serve snd] in Hk.
    + rewrite cleanupResults_lookup in Hk.
      destruct (results st !! k) as [m'|]; [|discriminate].
      destruct (expiresAt m' <=? now)%Z; [discriminate|assumption].
    + now rewrite (proj1 (get_result_frame _ _)) in Hk.
Qed.

(** C1, as the code has it. Retrieval answers not-found exactly when the
    store holds no entry for the identifier; it never compares the expiry
    with the clock. An entry published at time [T] is therefore found at
    every read, whatever its time, as long as every sweep so far ran before
    [T + RESULT_TTL_MS], and it is served: when the final mux left a file
    that no other entry points at, the answer to such a read is that file
    with the download headers. Once a sweep has run at or after
    [T + RESULT_TTL_MS], every later read finds the entry absent. *)
Theorem ttl_enforced_by_sweep (id path : string) (T : Z) (st : state) :
  (forall req st0, fst (Primary.get_result req st0) = not_found <->
                   results st0 !! req_id req = None) /\
  (forall cs now,
     forallb (sweeps_before (T + Primary.RESULT_TTL_MS)) cs = true ->
     fst (serve (Retrieve now id) (snd (serve_all cs (published id path T st))))
       <> Some not_found) /\
  (forall content cs now,
     files st !! path = Some content ->
     (forall k m, results st !! k = Some m -> filePath m = path -> k = id) ->
     forallb (sweeps_before (T + Primary.RESULT_TTL_MS)) cs = true ->
     fst (serve (Retrieve now id) (snd (serve_all cs (published id path T st))))
       = Some (artifact_response id content)) /\
  (forall cs now cs' now',
     (T + Primary.RESULT_TTL_MS <= now)%Z ->
     fst (serve (Retrieve now' id)
            (snd (serve_all (cs ++ Sweep now :: cs') (published id path T st))))
       = Some not_found).
Proof.
  split; [|split; [|split]].
  - intros req st0. split.
    + intros H. destruct (results st0 !! req_id req) as [meta|] eqn:E; [|reflexivity].
      now destruct (proj1 (get_result_present req st0 meta E)).
    + apply get_result_absent.
  - intros cs now Hcs. cbn [serve fst]. intros [= H].
    pose proof (serve_all_keeps_live cs (published id path T st) id
                  {| filePath := path; expiresAt := T + Primary.RESULT_TTL_MS |} Hcs
                  (published_lookup id path T st)) as Hlive.
    now destruct (proj1 (get_result_present (request_for id) _ _ Hlive)).
  - intros content cs now Hfile Hsole Hcs. cbn [serve fst]. f_equal.
    destruct (serve_all_keeps_file cs (published id path T st) id
                {| filePath := path; expiresAt := T + Primary.RESULT_TTL_MS |} content Hcs
                (published_lookup id path T st) Hfile) as [Hlive Hkept].
    { intros k m Hk Hp. destruct (decide (k = id)) as [->|Hne]; [reflexivity|].
      apply (Hsole k m); [|assumption].
      cbn in Hk. now rewrite lookup_insert_ne in Hk by congruence. }
    exact (proj2 (get_result_present (request_for id) _ _ Hlive) content Hkept).
  - intros cs now cs' now' Hnow. cbn [serve fst]. f_equal.
    apply get_result_absent. cbn [request_for req_id].
    rewrite serve_all_app. cbn [serve_all serve fst snd].
    apply serve_all_keeps_absent. rewrite cleanupResults_lookup.
    destruct (results (snd (serve_all cs (published id path T st))) !! id) as [m|] eqn:E;
      [|reflexivity].
    destruct (expiresAt m <=? now)%Z eqn:Hm; [reflexivity|].
    exfalso. apply Z.leb_gt in Hm.
    apply serve_all_lookup_was in E. rewrite published_lookup in E.
    injection E as <-. cbn in Hm. lia.
Qed.

Lemma ttl_enforced_by_sweep_witness :
  fst (serve (Retrieve 1800000 "ab")
         (snd (serve_all [Sweep 60000; Retrieve 70000 "ab"; Sweep 1799999]
                 (published "ab" "/tmp/final_ab.mp4" 0 Demo.muxed))))
    = Some (artifact_response "ab" "mp4") /\
  fst (serve (Retrieve 1860001 "ab")
         (snd (serve_all ([Sweep 60000] ++ Sweep 1860000 :: [])
                 (published "ab" "/tmp/final_ab.mp4" 0 Demo.muxed))))
    = Some not_found.
Proof.
  split.
  - apply (proj1 (proj2 (proj2
             (ttl_enforced_by_sweep "ab" "/tmp/final_ab.mp4" 0 Demo.muxed)))).
    + reflexivity.
    + intros k m Hk. cbn in Hk. now rewrite lookup_empty in Hk.
    + reflexivity.
  - apply (proj2 (proj2 (proj2
             (ttl_enforced_by_sweep "ab" "/tmp/final_ab.mp4" 0 Demo.muxed)))).
    vm_compute. discriminate.
Defined.

(** C1 as stated fails: the job [ab] is published with the clock at 0; a
    read at time [0 + RESULT_TTL_MS], with no sweep in between, is answered
    with the artifact, while an identifier that was never stored gets the
    not-found response. *)
Lemma expired_entry_is_still_served :
  results Demo.after_job !! "ab" =
    Some {| filePath := "/tmp/final_ab.mp4"; expiresAt := 0 + Primary.RESULT_TTL_MS |} /\
  fst (serve (Retrieve (0 + Primary.RESULT_TTL_MS) "ab") Demo.after_job) =
    Some (artifact_response "ab" "mp4") /\
  fst (serve (Retrieve (0 + Primary.RESULT_TTL_MS) "cd") Demo.after_job) =
    Some not_found.
Proof. vm_compute. repeat split. Qed.

Lemma serve_all_retrievals_frame (cs : list call) (st : state) :
  forallb is_retrieve cs = true ->
  results (snd (serve_all cs st)) = results st /\
  files (snd (serve_all cs st)) = files st.
Proof.
  revert st. induction cs as [|c cs IH]; intros st Hcs; [split; reflexivity|].
  cbn [forallb] in Hcs. apply andb_true_iff in Hcs as [Hc Hcs].
  destruct c as [now|now id]; [discriminate|].
  cbn [serve_all serve fst snd].
  destruct (IH (snd (Primary.get_result (request_for id) st)) Hcs) as [Hr Hf].
  destruct (get_result_frame (request_for id) st) as [Hr' Hf'].
  rewrite Hr, Hf. split; assumption.
Qed.

(** C10. Retrievals never change the result store or the files: after any
    number of retrievals, of any identifiers and at any times, both are as
    before, and an identifier whose entry points at an existing file is
    again answered with that same file. *)
Theorem retrieval_never_mutates_store (cs : list call) (st : state) :
  forallb is_retrieve cs = true ->
  results (snd (serve_all cs st)) = results st /\
  files (snd (serve_all cs st)) = files st /\
  forall id meta content now,
    results st !! id = Some meta ->
    files st !! filePath meta = Some content ->
    fst (serve (Retrieve now id) st) = Some (artifact_response id content) /\
    fst (serve (Retrieve now id) (snd (serve_all cs st))) =
      Some (artifact_response id content).
Proof.
  intros Hcs. destruct (serve_all_retrievals_frame cs st Hcs) as [Hr Hf].
  split; [assumption|]. split; [assumption|].
  intros id meta content now Hid Hfile. cbn [serve fst]. split; f_equal.
  - now apply (proj2 (get_result_present (request_for id) st meta Hid)).
  - assert (results (snd (serve_all cs st)) !! req_id (request_for id) = Some meta) as Hid'
      by (cbn [request_for req_id]; now rewrite Hr).
    apply (proj2 (get_result_present (request_for id) _ meta Hid')).
    now rewrite Hf.
Qed.

Lemma retrieval_never_mutates_store_witness :
  results (snd (serve_all [Retrieve 5 "ab"; Retrieve 6 "cd"; Retrieve 7 "ab"] Demo.after_job))
    = results Demo.after_job /\
  fst (serve (Retrieve 8 "ab")
         (snd (serve_all [Retrieve 5 "ab"; Retrieve 6 "cd"; Retrieve 7 "ab"] Demo.after_job)))
    = Some (artifact_response "ab" "mp4").
Proof.
  destruct (retrieval_never_mutates_store
              [Retrieve 5 "ab"; Retrieve 6 "cd"; Retrieve 7 "ab"] Demo.after_job eq_refl)
    as (Hr & _ & Hget).
  split; [exact Hr|].
  apply (Hget "ab" {| filePath := "/tmp/final_ab.mp4";
                      expiresAt := 0 + Primary.RESULT_TTL_MS |} "mp4" 8);
    vm_compute; reflexivity.
Defined.

(** ** Validation of a submission *)

Lemma prefix_http_nonempty (s : string) : String.prefix "http" s = true -> s <> "".
Proof. intros H ->. discriminate. Qed.

Lemma not_http_string_true (v : Js.value) :
  Primary.not_http_string v = true <-> lacks_http_prefix v.
Proof.
  unfold Primary.not_http_string, lacks_http_prefix. split.
  - intros H s ->. cbn in H.
    destruct (String.prefix "http" s) eqn:Hp; [|reflexivity].
    destruct (String.eqb_spec s ""); [now subst|discriminate].
  - intros H. destruct v as [| |b|n|s|l|fs]; cbn;
      rewrite ?orb_true_r; try reflexivity.
    rewrite (H s eq_refl). now rewrite orb_true_r.
Qed.

Lemma not_http_string_false (v : Js.value) :
  Primary.not_http_string v = false <->
  exists s, v = Js.Str s /\ String.prefix "http" s = true.
Proof.
  split.
  - intros H. unfold Primary.not_http_string in H.
    destruct v as [| |b|n|s|l|fs]; cbn in H;
      rewrite ?orb_true_r in H; try discriminate.
    exists s. split; [reflexivity|].
    destruct (String.prefix "http" s); [reflexivity|].
    now rewrite orb_true_r in H.
  - intros (s & -> & Hp). unfold Primary.not_http_string. cbn. rewrite Hp.
    destruct (String.eqb_spec s ""); [now subst|reflexivity].
Qed.

Lemma find_first_offender (pre post : list Js.value) (bad : Js.value) :
  (forall x, In x pre -> exists s, x = Js.Str s /\ String.prefix "http" s = true) ->
  lacks_http_prefix bad ->
  Js.find Primary.not_http_string (pre ++ bad :: post) = bad.
Proof.
  intros Hpre Hbad. induction pre as [|x pre IH]; cbn.
  - now rewrite (proj2 (not_http_string_true bad) Hbad).
  - rewrite (proj2 (not_http_string_false x) (Hpre x (or_introl eq_refl))).
    apply IH. intros y Hy. apply Hpre. now right.
Qed.

Lemma not_three_check (v : Js.value) :
  not_three v ->
  negb (Js.is_array v) || negb (Nat.eqb (length (Js.elements v)) 3) = true.
Proof.
  intros H. destruct v as [| |b|n|s|l|fs]; try reflexivity. cbn.
  destruct (Nat.eqb_spec (length l) 3) as [E|E]; [|reflexivity].
  now destruct (H l eq_refl).
Qed.

(** The handler answered at once with a 400 and left the state alone. *)
Ltac answered_400 := cbn; split; [eexists; reflexivity|reflexivity].

(** C3, as the code has it. A submission that passes the API key gate is
    answered with a 400 validation error, the state untouched and nothing
    added to the trace, so before any download, spawn or file creation:
    by the primary server when the narration value is not a string
    beginning with [http], or the video value is not an array of exactly
    three elements, or the first video entry that is not a string
    beginning with [http] is truthy; by [server.js] when the body is an
    object and [videos] is not an array of exactly three elements or
    [narrationUrl] is not a non-empty string. *)
Theorem invalid_submission_rejected_before_effects
  (w : world) (req : request) (id suffix : string) (now : Z) (st : state) :
  unauthorized (API_KEY w) (req_api_key req) = false ->
  (lacks_http_prefix (audio_of (req_body req)) \/
   not_three (videos_of (req_body req)) \/
   first_offender_truthy (videos_of (req_body req)) ->
   is_validation_error (fst (Primary.post_stitch w req id now st)) /\
   snd (Primary.post_stitch w req id now st) = st) /\
  (Js.nullish (req_body req) = false ->
   not_three (Js.opt_prop (req_body req) "videos") \/
   (forall s, Js.opt_prop (req_body req) "narrationUrl" = Js.Str s -> s = "") ->
   is_validation_error (fst (Legacy.post_stitch w req suffix st)) /\
   snd (Legacy.post_stitch w req suffix st) = st).
Proof.
  intros Hauth. split.
  - intros Hbad. unfold Primary.post_stitch, try_catch. rewrite Hauth.
    fold (audio_of (req_body req)). fold (videos_of (req_body req)).
    destruct (Primary.not_http_string (audio_of (req_body req))) eqn:Ha.
    { answered_400. }
    destruct (negb (Js.is_array (videos_of (req_body req))) ||
              negb (Nat.eqb (length (Js.elements (videos_of (req_body req)))) 3)) eqn:Hv.
    { answered_400. }
    destruct Hbad as [Hbad|[Hbad|Hbad]].
    + apply not_http_string_true in Hbad. congruence.
    + apply not_three_check in Hbad. congruence.
    + destruct Hbad as (pre & bad & post & Hvs & Hpre & Hlacks & Htruthy).
      rewrite Hvs. cbn [Js.elements].
      rewrite (find_first_offender pre post bad Hpre Hlacks), Htruthy.
      answered_400.
  - intros Hbody Hbad. unfold Legacy.post_stitch, try_catch. rewrite Hauth, Hbody.
    destruct (negb (Js.is_array (Js.opt_prop (req_body req) "videos")) ||
              negb (Nat.eqb (length (Js.elements (Js.opt_prop (req_body req) "videos"))) 3))
      eqn:Hv.
    { answered_400. }
    destruct Hbad as [Hbad|Hbad].
    + apply not_three_check in Hbad. congruence.
    + destruct (Js.opt_prop (req_body req) "narrationUrl") as [| |b|n|s|l|fs] eqn:Hn;
        cbn [Js.truthy Js.is_string negb]; rewrite ?orb_true_r;
        try answered_400.
      rewrite (Hbad s eq_refl). answered_400.
Qed.

Lemma invalid_submission_rejected_before_effects_witness :
  (is_validation_error
     (fst (Primary.post_stitch (Demo.world_with Demo.ffmpeg_ok)
             (Demo.post Demo.malformed_body) "ab" 0 Demo.empty)) /\
   snd (Primary.post_stitch (Demo.world_with Demo.ffmpeg_ok)
          (Demo.post Demo.malformed_body) "ab" 0 Demo.empty) = Demo.empty) /\
  (is_validation_error
     (fst (Legacy.post_stitch (Demo.world_with Demo.ffmpeg_ok)
             (Demo.post Demo.malformed_body) "x1" Demo.empty)) /\
   snd (Legacy.post_stitch (Demo.world_with Demo.ffmpeg_ok)
          (Demo.post Demo.malformed_body) "x1" Demo.empty) = Demo.empty).
Proof.
  destruct (invalid_submission_rejected_before_effects
              (Demo.world_with Demo.ffmpeg_ok) (Demo.post Demo.malformed_body)
              "ab" "x1" 0 Demo.empty eq_refl) as [HP HL].
  split.
  - apply HP. left. intros s [= <-]. reflexivity.
  - apply HL; [reflexivity|]. left. intros l [= <-]. cbn. discriminate.
Defined.

(** C3 as stated fails: the narration value [httpfile.mp3] has no http or
    https scheme, yet the submission passes validation; the three videos
    are fetched and written to scratch files before the fetch of the
    narration fails, and the answer is a 500, not a validation error. *)
Lemma prefix_check_admits_non_urls :
  spec_has_http_scheme "httpfile.mp3" = false /\
  fst (Primary.post_stitch (Demo.world_with Demo.ffmpeg_ok)
         (Demo.post Demo.odd_narration_body) "ab" 0 Demo.empty) =
    Returned (json_response 500 (Js.Obj [("error", Js.Str "fetch failed")])) /\
  trace (snd (Primary.post_stitch (Demo.world_with Demo.ffmpeg_ok)
                (Demo.post Demo.odd_narration_body) "ab" 0 Demo.empty)) =
    [EFetch "http://cdn.test/1.mp4"; ECreate "/tmp/v1_ab.mp4";
     EFetch "http://cdn.test/2.mp4"; ECreate "/tmp/v2_ab.mp4";
     EFetch "http://cdn.test/3.mp4"; ECreate "/tmp/v3_ab.mp4";
     EFetch "httpfile.mp3"] /\
  files (snd (Primary.post_stitch (Demo.world_with Demo.ffmpeg_ok)
                (Demo.post Demo.odd_narration_body) "ab" 0 Demo.empty))
    !! "/tmp/v1_ab.mp4" = Some "<http://cdn.test/1.mp4>".
Proof. vm_compute. repeat split. Qed.

(** The test [if (bad)] on the element that [find] returns lets a falsy
    offender through: with a null second video the first video is fetched
    and written before [fetch] rejects the rendering of null, and the
    answer is a 500. *)
Lemma falsy_video_entry_passes_validation :
  Js.find Primary.not_http_string (Js.elements (videos_of Demo.null_video_body)) = Js.Null /\
  fst (Primary.post_stitch (Demo.world_with Demo.ffmpeg_ok)
         (Demo.post Demo.null_video_body) "ab" 0 Demo.empty) =
    Returned (json_response 500 (Js.Obj [("error", Js.Str "fetch failed")])) /\
  trace (snd (Primary.post_stitch (Demo.world_with Demo.ffmpeg_ok)
                (Demo.post Demo.null_video_body) "ab" 0 Demo.empty)) =
    [EFetch "http://cdn.test/1.mp4"; ECreate "/tmp/v1_ab.mp4"; EFetch "null"].
Proof. vm_compute. repeat split. Qed.

(** ** The two spellings of a submission *)

(** C9, as the code has it. The narration value is [audioUrl] unless that
    is missing or null, and then [narrationUrl]; the video value is
    [videoUrls] unless that is missing or null, and then [videos]; and the
    handler depends on the body through these two values only, so the same
    values under either spelling are validated and processed alike. *)
Theorem either_spelling_is_accepted
  (w : world) (req req' : request) (id : string) (now : Z) (st : state) :
  (Js.nullish (Js.opt_prop (req_body req) "audioUrl") = false ->
   audio_of (req_body req) = Js.opt_prop (req_body req) "audioUrl") /\
  (Js.nullish (Js.opt_prop (req_body req) "videoUrls") = false ->
   videos_of (req_body req) = Js.opt_prop (req_body req) "videoUrls") /\
  (Js.nullish (Js.opt_prop (req_body req) "audioUrl") = true ->
   audio_of (req_body req) = Js.opt_prop (req_body req) "narrationUrl") /\
  (Js.nullish (Js.opt_prop (req_body req) "videoUrls") = true ->
   videos_of (req_body req) = Js.opt_prop (req_body req) "videos") /\
  (req_api_key req = req_api_key req' ->
   req_protocol req = req_protocol req' ->
   req_host req = req_host req' ->
   audio_of (req_body req) = audio_of (req_body req') ->
   videos_of (req_body req) = videos_of (req_body req') ->
   Primary.post_stitch w req id now st = Primary.post_stitch w req' id now st) /\
  (forall a vs,
     Js.nullish a = false -> Js.nullish vs = false ->
     req_body req = Js.Obj [("audioUrl", a); ("videoUrls", vs)] ->
     req_body req' = Js.Obj [("narrationUrl", a); ("videos", vs)] ->
     audio_of (req_body req) = audio_of (req_body req') /\
     videos_of (req_body req) = videos_of (req_body req')).
Proof.
  unfold audio_of, videos_of, Js.coalesce.
  repeat (split; [intros H; now rewrite H|]). split.
  - intros Hk Hp Hh Ha Hv. unfold Primary.post_stitch, Js.coalesce.
    now rewrite Hk, Hp, Hh, Ha, Hv.
  - intros a vs Ha Hvs -> ->. cbn. now rewrite Ha, Hvs.
Qed.

Lemma either_spelling_is_accepted_witness :
  audio_of Demo.good_body = Js.Str "http://cdn.test/n.mp3" /\
  Primary.post_stitch (Demo.world_with Demo.ffmpeg_ok) (Demo.post Demo.good_body) "ab" 0 Demo.empty =
  Primary.post_stitch (Demo.world_with Demo.ffmpeg_ok) (Demo.post Demo.alternate_body) "ab" 0 Demo.empty.
Proof.
  destruct (either_spelling_is_accepted (Demo.world_with Demo.ffmpeg_ok)
              (Demo.post Demo.good_body) (Demo.post Demo.alternate_body) "ab" 0 Demo.empty)
    as (H1 & _ & _ & _ & H5 & _).
  split.
  - exact (H1 eq_refl).
  - apply H5; reflexivity.
Defined.

(** C9 as stated fails: in this body both spellings of the narration are
    present, [audioUrl] holding null; the handler takes [narrationUrl] and
    stitches the job, where [audioUrl] taking precedence would have been a
    validation error. *)
Lemma null_audioUrl_yields_to_narrationUrl :
  Js.has_prop Demo.null_audio_body "audioUrl" = true /\
  Js.has_prop Demo.null_audio_body "narrationUrl" = true /\
  Js.opt_prop Demo.null_audio_body "audioUrl" = Js.Null /\
  audio_of Demo.null_audio_body = Js.Str "http://cdn.test/n.mp3" /\
  fst (Primary.post_stitch (Demo.world_with Demo.ffmpeg_ok)
         (Demo.post Demo.null_audio_body) "ab" 0 Demo.empty) =
    Returned (json_response 200
                (Js.Obj [("ok", Js.Bool true);
                         ("resultUrl", Js.Str "http://stitcher.test/result/ab");
                         ("id", Js.Str "ab")])).
Proof. vm_compute. repeat split. Qed.

(** ** Stages of a handler *)

Section StagedRules.

Variable allowed : effect -> bool.
Variable Good : state -> outcome response -> state -> Prop.

Hypothesis Good_after :
  forall st st1 o st', step_ok allowed st st1 -> Good st1 o st' -> Good st o st'.
Hypothesis Good_returned :
  forall st o st', Good st o st' -> exists resp, o = Returned resp.

Lemma staged_ret (resp : response) :
  status resp <> 200%Z -> staged allowed Good (ret resp).
Proof.
  intros H st. left. split; [|apply step_ok_refl].
  intros r [= <-]. exact H.
Qed.

Lemma staged_bind {A} (m : M A) (k : A -> M response) (R : A -> Prop) :
  obeys allowed m R ->
  (forall a, R a -> staged allowed Good (k a)) ->
  staged allowed Good (bind m k).
Proof.
  intros Hm Hk st. unfold bind. destruct (Hm st) as [Hstep Hret].
  destruct (m st) as [[a|e| |e] st1]; cbn in *;
    try (left; split; [intros r; discriminate|assumption]).
  destruct (Hk a (Hret a eq_refl) st1) as [[Hno Hs]|Hg].
  - left. split; [assumption|]. eapply step_ok_trans; eassumption.
  - right. eapply Good_after; eassumption.
Qed.

Lemma staged_try_catch (m : M response) (h : js_error -> response) :
  (forall e, status (h e) <> 200%Z) ->
  staged allowed Good m ->
  staged allowed Good (try_catch m (fun e => ret (h e))).
Proof.
  intros Hh Hm st. unfold try_catch. specialize (Hm st).
  destruct (m st) as [[a|e| |e] st1]; cbn in *; try assumption.
  destruct Hm as [[_ Hs]|Hg].
  - left. split; [|assumption]. intros r [= <-]. apply Hh.
  - destruct (Good_returned _ _ _ Hg) as [r Hr]. discriminate.
Qed.

End StagedRules.

Lemma obeys_downloadToTmp (allowed : effect -> bool) (w : world) (url : Js.value) (filename : string) :
  (forall u, allowed (EFetch u) = true) ->
  (forall p, allowed (ECreate p) = true) ->
  obeys allowed (Primary.downloadToTmp w url filename)
    (fun p => p = path_join (tmpdir w) filename).
Proof.
  intros Hf Hc. unfold Primary.downloadToTmp.
  eapply obeys_bind; [apply obeys_perform, Hf|]. intros _ _.
  destruct (remote w (Js.to_string url)) as [e|res]; [apply obeys_throw|].
  destruct (http_ok res); cbn [negb]; [|apply obeys_throw].
  destruct (http_body res) as [b|]; [|apply obeys_throw].
  eapply obeys_bind.
  - unfold Primary.pipeline. eapply obeys_bind; [apply obeys_create_file, Hc|].
    intros _ _. destruct (failure b); [apply obeys_throw|].
    apply (obeys_ret allowed tt (fun _ => True) I).
  - intros _ _. now apply obeys_ret.
Qed.

Lemma obeys_runFFmpeg (allowed : effect -> bool) (w : world) (args : list string) :
  (forall c a, allowed (ESpawn c a) = true) ->
  (forall p, allowed (EAwait p) = true) ->
  obeys allowed (Primary.runFFmpeg w args) (fun _ => True).
Proof.
  intros Hs Ha. unfold Primary.runFFmpeg.
  eapply obeys_bind; [apply obeys_spawn_process, Hs|]. intros evs _.
  eapply obeys_weaken; [apply obeys_await_promise, Ha|]. trivial.
Qed.

Lemma published_after_mux_after (w : world) (id : string) (now : Z) st st1 o st' :
  step_ok no_store st st1 ->
  published_after_mux w id now st1 o st' ->
  published_after_mux w id now st o st'.
Proof.
  intros [Hr (t0 & Ht0 & Hn0)] (Hok & Hres & t1 & t2 & Ht & Hn1 & Hn2).
  split; [assumption|]. split; [now rewrite Hres, Hr|].
  exists (t0 ++ t1), t2. split; [|split; [|assumption]].
  - rewrite Ht, Ht0. now rewrite <- !app_assoc.
  - rewrite forallb_app. now rewrite Hn0, Hn1.
Qed.

Lemma published_after_mux_returned (w : world) (id : string) (now : Z) st o st' :
  published_after_mux w id now st o st' -> exists resp, o = Returned resp.
Proof. intros ((resp & Hresp & _) & _). now exists resp. Qed.

(** ** Exact runs of the last steps of the primary handler *)

Lemma bind_run {A B} (m : M A) (k : A -> M B) (st : state) :
  bind m k st =
  match m st with
  | (Returned a, st') => k a st'
  | (Threw e, st') => (Threw e, st')
  | (Hung, st') => (Hung, st')
  | (Crashed e, st') => (Crashed e, st')
  end.
Proof. reflexivity. Qed.

Lemma runFFmpeg_run (w : world) (args : list string) (st : state) :
  exists p fs,
    Primary.runFFmpeg w args st =
    (await_outcome p,
     {| results := results st; files := fs;
        trace := trace st ++ [ESpawn "ffmpeg" args; EAwait p] |}).
Proof.
  exists (Proc.runFFmpeg_promise (fst (spawn w "ffmpeg" args (files st)))),
         (snd (spawn w "ffmpeg" args (files st))).
  unfold Primary.runFFmpeg, spawn_process, await_promise.
  repeat (rewrite bind_run;
          cbn [perform get_files set_files ret fst snd results files trace]).
  rewrite <- app_assoc. cbn [app].
  destruct (Proc.runFFmpeg_promise _); reflexivity.
Qed.

Lemma unlink_quiet_run (p : string) (st : state) :
  unlink_quiet p st =
  (Returned tt,
   {| results := results st; files := delete p (files st);
      trace := trace st ++ [EUnlink p] |}).
Proof. reflexivity. Qed.

Lemma for_each_unlink_run (ps : list string) (st : state) :
  exists fs,
    for_each unlink_quiet ps st =
    (Returned tt,
     {| results := results st; files := fs; trace := trace st ++ map EUnlink ps |}).
Proof.
  revert st. induction ps as [|p ps IH]; intros st.
  - exists (files st). cbn. rewrite app_nil_r. now destruct st.
  - cbn [for_each]. rewrite bind_run, unlink_quiet_run.
    destruct (IH {| results := results st; files := delete p (files st);
                    trace := trace st ++ [EUnlink p] |}) as [fs Hfs].
    exists fs. rewrite Hfs. cbn [results trace map]. now rewrite <- app_assoc.
Qed.

Lemma forallb_no_store_unlinks (ps : list string) : forallb no_store (map EUnlink ps) = true.
Proof. induction ps as [|p ps IH]; [reflexivity|exact IH]. Qed.

(** ** Publication of a result *)

(** One more awaited step of the handler: it obeys the restriction by the
    lemma [H], and the rest of the handler is staged. *)
Ltac next_stage after H :=
  eapply staged_bind; [exact after|apply H; reflexivity|].

(** The guards before the first download answer at once, with a status
    other than 200. *)
Ltac early_answers :=
  repeat match goal with
         | |- staged _ _ (if ?c then _ else _) =>
             destruct c; [apply staged_ret; cbn; lia|]
         end.

Lemma post_stitch_staged (w : world) (req : request) (id : string) (now : Z) :
  staged no_store (published_after_mux w id now) (Primary.post_stitch w req id now).
Proof.
  unfold Primary.post_stitch.
  apply (staged_try_catch no_store (published_after_mux w id now)
           (published_after_mux_returned w id now) _
           (fun e => json_response 500 (Js.Obj [("error", Js.Str (error_text e))]))).
  { intros e. cbn. lia. }
  early_answers.
  next_stage (published_after_mux_after w id now) obeys_downloadToTmp. intros v1 Hv1.
  next_stage (published_after_mux_after w id now) obeys_downloadToTmp. intros v2 Hv2.
  next_stage (published_after_mux_after w id now) obeys_downloadToTmp. intros v3 Hv3.
  next_stage (published_after_mux_after w id now) obeys_downloadToTmp. intros a1 Ha1.
  next_stage (published_after_mux_after w id now) obeys_create_file. intros _ _.
  next_stage (published_after_mux_after w id now) obeys_runFFmpeg.
  intros _ _. cbv beta in Hv1, Hv2, Hv3, Ha1. subst a1.
  intros st. rewrite bind_run.
  destruct (runFFmpeg_run w
              (Primary.finalArgs (path_join (tmpdir w) ("base_" +:+ id +:+ ".mp4"))
                 (path_join (tmpdir w) ("narr_" +:+ id +:+ ".mp3"))
                 (path_join (tmpdir w) ("final_" +:+ id +:+ ".mp4"))) st)
    as (p & fs & Hrun).
  rewrite Hrun.
  destruct p as [| |msg|e]; cbn [await_outcome fst snd].
  2: {
    rewrite bind_run, unlink_quiet_run, bind_run. cbn [Primary.results_set].
    cbn [results files trace]. rewrite bind_run.
    match goal with
    | |- context [for_each unlink_quiet ?ps ?s] =>
        destruct (for_each_unlink_run ps s) as [fs' Hfe]; rewrite Hfe
    end.
    cbn [ret fst snd results files trace].
    right. split; [eexists; split; reflexivity|]. split; [reflexivity|].
    exists [].
    eexists. split; [|split; [reflexivity|apply forallb_no_store_unlinks]].
    cbn [app]. rewrite <- !app_assoc. reflexivity. }
  all: left; (split; [intros r; discriminate|]); (split; [reflexivity|]);
    eexists; (split; [reflexivity|reflexivity]).
Qed.

(** C4. A run of the submission handler that does not answer 200, whether
    it fails validation, a fetch, the list file, the base build or the
    final mux, or never answers, leaves the result store as it was and
    performs no [results.set], so that a retrieval of its identifier, not
    stored before, is answered not-found. A run that answers 200 has stored
    exactly the entry of its job, [{ filePath: final_<id>.mp4, expiresAt:
    now + RESULT_TTL_MS }], by a single [results.set] that comes after the
    final mux was spawned and its promise had resolved. *)
Theorem result_published_only_after_final_mux
  (w : world) (req : request) (id : string) (now : Z) (st : state) :
  (not_ok (fst (Primary.post_stitch w req id now st)) ->
   results (snd (Primary.post_stitch w req id now st)) = results st /\
   (exists t, trace (snd (Primary.post_stitch w req id now st)) = trace st ++ t /\
              forallb no_store t = true) /\
   (results st !! id = None ->
    fst (Primary.get_result (request_for id) (snd (Primary.post_stitch w req id now st)))
      = not_found)) /\
  (forall resp,
     fst (Primary.post_stitch w req id now st) = Returned resp ->
     status resp = 200%Z ->
     published_after_mux w id now st
       (fst (Primary.post_stitch w req id now st))
       (snd (Primary.post_stitch w req id now st))).
Proof.
  destruct (post_stitch_staged w req id now st) as [[Hno Hstep]|Hgood].
  - split.
    + intros _. destruct Hstep as [Hres Htrace].
      split; [exact Hres|]. split; [exact Htrace|].
      intros Hid. apply get_result_absent. cbn [request_for req_id].
      now rewrite Hres.
    + intros resp Hresp Hok. now destruct (Hno resp Hresp).
  - split; [|intros; exact Hgood].
    intros Hno. destruct Hgood as ((resp & Hresp & Hok) & _).
    now destruct (Hno resp Hresp).
Qed.

Lemma result_published_only_after_final_mux_witness :
  results (snd (Primary.post_stitch (Demo.world_with Demo.ffmpeg_killed)
                  (Demo.post Demo.good_body) "ab" 0 Demo.empty)) = ∅ /\
  published_after_mux (Demo.world_with Demo.ffmpeg_ok) "ab" 0 Demo.empty
    (fst (Primary.post_stitch (Demo.world_with Demo.ffmpeg_ok)
            (Demo.post Demo.good_body) "ab" 0 Demo.empty))
    Demo.after_job.
Proof.
  split.
  - apply (proj1 (result_published_only_after_final_mux
                    (Demo.world_with Demo.ffmpeg_killed) (Demo.post Demo.good_body)
                    "ab" 0 Demo.empty)).
    intros resp. vm_compute. intros [= <-]. discriminate.
  - apply (proj2 (result_published_only_after_final_mux
                    (Demo.world_with Demo.ffmpeg_ok) (Demo.post Demo.good_body)
                    "ab" 0 Demo.empty)
             (json_response 200
                (Js.Obj [("ok", Js.Bool true);
                         ("resultUrl", Js.Str "http://stitcher.test/result/ab");
                         ("id", Js.Str "ab")]))).
    + vm_compute. reflexivity.
    + reflexivity.
Defined.

(** ** Scratch files of a failed job *)

(** No run of the primary submission handler that ends without a 200
    answer has deleted anything: the catch clause only logs and answers
    500. *)
Lemma post_stitch_failure_deletes_nothing (w : world) (req : request) (id : string) (now : Z) :
  staged no_unlink answered_ok (Primary.post_stitch w req id now).
Proof.
  assert (forall st st1 o st', step_ok no_unlink st st1 ->
            answered_ok st1 o st' -> answered_ok st o st') as Hafter
    by (intros st st1 o st' _ H; exact H).
  assert (forall st o st', answered_ok st o st' -> exists resp, o = Returned resp)
    as Hret by (intros st o st' (resp & H & _); now exists resp).
  unfold Primary.post_stitch.
  apply (staged_try_catch no_unlink answered_ok Hret _
           (fun e => json_response 500 (Js.Obj [("error", Js.Str (error_text e))]))).
  { intros e. cbn. lia. }
  early_answers.
  do 4 (next_stage Hafter obeys_downloadToTmp; intros ? _).
  next_stage Hafter obeys_create_file. intros _ _.
  next_stage Hafter obeys_runFFmpeg. intros _ _.
  intros st. rewrite bind_run.
  match goal with
  | |- context [Primary.runFFmpeg w ?args st] =>
      destruct (runFFmpeg_run w args st) as (p & fs & Hrun); rewrite Hrun
  end.
  destruct p as [| |msg|e]; cbn [await_outcome fst snd].
  2: {
    rewrite bind_run, unlink_quiet_run, bind_run. cbn [Primary.results_set].
    rewrite bind_run.
    match goal with
    | |- context [for_each unlink_quiet ?ps ?s] =>
        destruct (for_each_unlink_run ps s) as [fs' Hfe]; rewrite Hfe
    end.
    right. eexists. split; reflexivity. }
  all: left; (split; [intros r; discriminate|]); (split; [reflexivity|]);
    eexists; (split; [reflexivity|reflexivity]).
Qed.

(** C2 at Scenario B: the second of three videos answers 404. The handler
    answers 500 with the fetch error, the first video, already fetched, is
    still in the scratch directory, and the trace holds no deletion. *)
Theorem failed_job_leaves_scratch_files :
  fst (Primary.post_stitch (Demo.world_with Demo.ffmpeg_ok)
         (Demo.post Demo.missing_video_body) "ab" 0 Demo.empty) =
    Returned (json_response 500
                (Js.Obj [("error",
                          Js.Str "Failed to download http://cdn.test/missing.mp4 (HTTP 404)")])) /\
  map_to_list
    (files (snd (Primary.post_stitch (Demo.world_with Demo.ffmpeg_ok)
                   (Demo.post Demo.missing_video_body) "ab" 0 Demo.empty))) =
    [("/tmp/v1_ab.mp4", "<http://cdn.test/1.mp4>")] /\
  trace (snd (Primary.post_stitch (Demo.world_with Demo.ffmpeg_ok)
                (Demo.post Demo.missing_video_body) "ab" 0 Demo.empty)) =
    [EFetch "http://cdn.test/1.mp4"; ECreate "/tmp/v1_ab.mp4";
     EFetch "http://cdn.test/missing.mp4"].
Proof. vm_compute. repeat split. Qed.

(** ** The invokers at a failed launch and at a signal *)

Lemma emit_pending_runFFmpeg (s : Proc.run_state) (ev : Proc.event) :
  Proc.settled (Proc.emit Proc.runFFmpeg_listeners s ev) = Proc.Pending ->
  Proc.settled s = Proc.Pending /\ Proc.is_output ev = true.
Proof.
  destruct s as [o e p]. destruct p; destruct ev as [d|d|err|c sg]; cbn;
    try discriminate; try (intros _; split; reflexivity);
    destruct (Proc.is_zero c); cbn; discriminate.
Qed.

(** [runFFmpeg] leaves its promise pending only while the process has
    emitted output and nothing else: an ['error'] or a ['close'] settles
    it. *)
Lemma runFFmpeg_pending_only_on_output (evs : list Proc.event) :
  Proc.runFFmpeg_promise evs = Proc.Pending -> forallb Proc.is_output evs = true.
Proof.
  unfold Proc.runFFmpeg_promise, Proc.drive. generalize Proc.init.
  induction evs as [|ev evs IH]; intros s H; [reflexivity|].
  cbn [fold_left] in H. cbn [forallb].
  assert (Proc.settled (Proc.emit Proc.runFFmpeg_listeners s ev) = Proc.Pending) as Hs.
  { destruct (Proc.settled (Proc.emit Proc.runFFmpeg_listeners s ev)) eqn:E;
      [reflexivity| | |];
      rewrite settled_stable_runFFmpeg in H by (rewrite E; discriminate); congruence. }
  rewrite (IH _ H). now rewrite (proj2 (emit_pending_runFFmpeg s ev Hs)).
Qed.

(** [runFFmpeg] never meets an uncaught ['error']. *)
Lemma runFFmpeg_never_uncaught (evs : list Proc.event) (e : Proc.spawn_error) :
  Proc.runFFmpeg_promise evs <> Proc.Uncaught e.
Proof.
  unfold Proc.runFFmpeg_promise, Proc.drive.
  assert (forall s, (forall e', Proc.settled s <> Proc.Uncaught e') ->
            Proc.settled (fold_left (Proc.emit Proc.runFFmpeg_listeners) evs s)
              <> Proc.Uncaught e) as H.
  { induction evs as [|ev evs IH]; intros s Hs; [apply Hs|].
    cbn [fold_left]. apply IH. intros e'.
    destruct s as [o er p]. destruct p as [| |msg|e0];
      destruct ev as [d|d|err|c sg]; cbn;
      try discriminate; try (now specialize (Hs e0));
      destruct (Proc.is_zero c); cbn; discriminate. }
  apply H. intros e'. cbn. discriminate.
Qed.

(** C5 at a missing binary. The process object emits ['error'] with code
    ENOENT and then ['close']. [run] of [server.js] has no ['error']
    listener: the event is an uncaught exception, no rejection carrying the
    error code is signalled and the submission gets no answer. [runFFmpeg]
    of the primary server rejects with the code in the message, and its
    submission answers 500. *)
Theorem run_has_no_error_listener :
  Proc.run_promise [Proc.Error Demo.enoent; Proc.Close (Some (-2)) None] =
    Proc.Uncaught Demo.enoent /\
  fst (Legacy.post_stitch (Demo.world_with Demo.ffmpeg_absent)
         (Demo.post Demo.alternate_body) "x1" Demo.empty) =
    Crashed (mkError "spawn ffmpeg ENOENT") /\
  Proc.runFFmpeg_promise [Proc.Error Demo.enoent; Proc.Close (Some (-2)) None] =
    Proc.Rejected "spawn ffmpeg failed: ENOENT spawn ffmpeg ENOENT" /\
  fst (Primary.post_stitch (Demo.world_with Demo.ffmpeg_absent)
         (Demo.post Demo.good_body) "ab" 0 Demo.empty) =
    Returned (json_response 500
                (Js.Obj [("error", Js.Str "spawn ffmpeg failed: ENOENT spawn ffmpeg ENOENT")])).
Proof. vm_compute. repeat split. Qed.

(** C6 at a process killed by SIGKILL after some diagnostics. Both invokers
    reject; the message of [run] carries the null exit code and stderr but
    not the signal, that of [runFFmpeg] carries the signal too. *)
Theorem run_drops_the_signal :
  Proc.run_promise [Proc.Stderr "frame=  120"; Proc.Close None (Some "SIGKILL")] =
    Proc.Rejected "Command failed (null): frame=  120" /\
  Proc.runFFmpeg_promise [Proc.Stderr "frame=  120"; Proc.Close None (Some "SIGKILL")] =
    Proc.Rejected ("ffmpeg exited code=null signal=SIGKILL" +:+ nl +:+
                   "STDERR:" +:+ nl +:+ "frame=  120" +:+ nl +:+ "STDOUT:" +:+ nl).
Proof. vm_compute. repeat split. Qed.

Lemma runFFmpeg_close_witness :
  Proc.runFFmpeg_promise ([Proc.Stdout "a"; Proc.Stderr "b"] ++ Proc.Close (Some 0) None :: []) =
    Proc.Resolved /\
  Proc.runFFmpeg_promise ([Proc.Stdout "a"; Proc.Stderr "b"] ++ Proc.Close (Some 1) None :: []) =
    Proc.Rejected ("ffmpeg exited code=1 signal=null" +:+ nl +:+
                   "STDERR:" +:+ nl +:+ "b" +:+ nl +:+ "STDOUT:" +:+ nl +:+ "a").
Proof.
  split.
  - apply (runFFmpeg_close [Proc.Stdout "a"; Proc.Stderr "b"] [] (Some 0) None eq_refl).
  - apply (runFFmpeg_close [Proc.Stdout "a"; Proc.Stderr "b"] [] (Some 1) None eq_refl).
Defined.

Lemma run_close_witness :
  Proc.run_promise ([Proc.Stderr "b"] ++ [Proc.Close (Some 0) None]) = Proc.Resolved /\
  Proc.run_promise ([Proc.Stderr "b"] ++ [Proc.Close (Some 1) None]) =
    Proc.Rejected "Command failed (1): b".
Proof.
  split.
  - apply (run_close [Proc.Stderr "b"] (Some 0) None eq_refl).
  - apply (run_close [Proc.Stderr "b"] (Some 1) None eq_refl).
Defined.

Lemma runFFmpeg_pending_only_on_output_witness :
  forallb Proc.is_output [Proc.Stdout "a"; Proc.Stderr "b"] = true.
Proof.
  apply (runFFmpeg_pending_only_on_output [Proc.Stdout "a"; Proc.Stderr "b"]).
  reflexivity.
Defined.

(** ** The sweep *)

(** A sweep with the clock at [now] removes exactly the entries whose
    expiry is at or before [now], keeps every other entry as it is, deletes
    the file of every entry it removes and no other file. *)
Theorem sweep_evicts_exactly_expired (now : Z) (st : state) (id p : string) :
  results (snd (Primary.cleanupResults now st)) !! id =
    match results st !! id with
    | Some m => if (expiresAt m <=? now)%Z then None else Some m
    | None => None
    end /\
  files (snd (Primary.cleanupResults now st)) !! p =
    if expired_file_in now p (map_to_list (results st)) then None else files st !! p.
Proof.
  split; [apply cleanupResults_lookup|].
  unfold Primary.cleanupResults. cbn [snd]. apply sweep_fold_files.
Qed.

(** * Further properties of the two servers *)

(** ** Strings *)

Lemma length_append' (s t : string) :
  String.length (s +:+ t) = (String.length s + String.length t)%nat.
Proof.
  induction s as [|a s IH]; [reflexivity|].
  rewrite append_cons. cbn [String.length]. now rewrite IH.
Qed.

Lemma append_inj_r (s s' t : string) : s +:+ t = s' +:+ t -> s = s'.
Proof.
  revert s'. induction s as [|a s IH]; intros [|b s'] H.
  - reflexivity.
  - apply (f_equal String.length) in H. rewrite append_nil_l, append_cons in H.
    cbn [String.length] in H. rewrite length_append' in H. lia.
  - apply (f_equal String.length) in H. rewrite append_nil_l, append_cons in H.
    cbn [String.length] in H. rewrite length_append' in H. lia.
  - rewrite !append_cons in H. injection H as -> H. f_equal. now apply IH.
Qed.

Lemma append_inj_l (s t t' : string) : s +:+ t = s +:+ t' -> t = t'.
Proof.
  induction s as [|a s IH]; [trivial|].
  rewrite !append_cons. intros [= H]. now apply IH.
Qed.

(** ** The concat list file: distinct paths give distinct entries *)

Lemma escape_quotes_cons (a : ascii) (p : string) :
  escape_quotes (String a p) =
  if Ascii.eqb a "'"%char
  then String "'" (String "\" (String "'" (String "'" (escape_quotes p))))
  else String a (escape_quotes p).
Proof. unfold escape_quotes. cbn [replace_all]. destruct (Ascii.eqb a "'"); reflexivity. Qed.

Lemma escape_quotes_inj (p q : string) : escape_quotes p = escape_quotes q -> p = q.
Proof.
  revert q. induction p as [|a p IH]; intros [|b q] H.
  - reflexivity.
  - rewrite escape_quotes_cons in H. destruct (Ascii.eqb b "'"); discriminate.
  - rewrite escape_quotes_cons in H. destruct (Ascii.eqb a "'"); discriminate.
  - rewrite !escape_quotes_cons in H.
    destruct (Ascii.eqb_spec a "'"%char) as [->|Ha];
      destruct (Ascii.eqb_spec b "'"%char) as [->|Hb].
    + injection H as H. f_equal. now apply IH.
    + injection H as Hb' _. now destruct Hb.
    + injection H as Ha' _. now destruct Ha.
    + injection H as -> H. f_equal. now apply IH.
Qed.

(** The escaping loses nothing: two paths with the same entry line in the
    concat list file are the same path, so the three entries of a list
    file determine the three paths. *)
Theorem list_entry_determines_path (p q : string) :
  list_entry p = list_entry q -> p = q.
Proof.
  unfold list_entry. intros H.
  apply append_inj_l in H. apply append_inj_r in H.
  now apply escape_quotes_inj.
Qed.

Lemma list_entry_determines_path_witness : "/t'mp/v1.mp4" = "/t'mp/v1.mp4".
Proof. apply (list_entry_determines_path "/t'mp/v1.mp4" "/t'mp/v1.mp4"). reflexivity. Defined.

(** ** [safeTmp] *)

Lemma safeTmp_chars (name : string) :
  all_chars Legacy.filename_char (Legacy.safeTmp name) = true.
Proof.
  induction name as [|a name IH]; [reflexivity|].
  cbn [Legacy.safeTmp all_chars]. rewrite IH, andb_true_r.
  destruct (Legacy.filename_char a) eqn:E; [exact E|reflexivity].
Qed.

Lemma safeTmp_fixes_safe (name : string) :
  all_chars Legacy.filename_char name = true -> Legacy.safeTmp name = name.
Proof.
  induction name as [|a name IH]; [reflexivity|].
  cbn [Legacy.safeTmp all_chars]. intros H.
  apply andb_true_iff in H as [Ha Hn]. now rewrite Ha, IH.
Qed.

(** [safeTmp] keeps the length of a name, yields only letters, digits,
    dots, underscores and hyphens, so never a path separator, changes
    nothing in a name that is made of such characters already, and
    applying it twice is applying it once. *)
Theorem safeTmp_sanitises (name : string) :
  String.length (Legacy.safeTmp name) = String.length name /\
  all_chars Legacy.filename_char (Legacy.safeTmp name) = true /\
  all_chars (fun a => negb (Ascii.eqb a "/"%char)) (Legacy.safeTmp name) = true /\
  (all_chars Legacy.filename_char name = true -> Legacy.safeTmp name = name) /\
  Legacy.safeTmp (Legacy.safeTmp name) = Legacy.safeTmp name.
Proof.
  split; [|split; [|split; [|split]]].
  - induction name as [|a name IH]; [reflexivity|].
    cbn [Legacy.safeTmp String.length]. now rewrite IH.
  - apply safeTmp_chars.
  - pose proof (safeTmp_chars name) as H.
    induction (Legacy.safeTmp name) as [|a s IH]; [reflexivity|].
    cbn [all_chars] in *. apply andb_true_iff in H as [Ha Hs].
    rewrite (IH Hs), andb_true_r.
    destruct (Ascii.eqb_spec a "/"%char) as [->|_]; [discriminate|reflexivity].
  - apply safeTmp_fixes_safe.
  - apply safeTmp_fixes_safe, safeTmp_chars.
Qed.

Lemma safeTmp_sanitises_witness :
  Legacy.safeTmp "narration.mp3" = "narration.mp3" /\
  Legacy.safeTmp "../etc/pass wd" = ".._etc_pass_wd".
Proof.
  split.
  - apply (proj1 (proj2 (proj2 (proj2 (safeTmp_sanitises "narration.mp3"))))).
    reflexivity.
  - reflexivity.
Defined.

(** ** The ways [downloadToTmp] fails *)

(** [downloadToTmp] fetches its url once and creates at most the
    destination file. When [fetch] rejects, or the disk refuses the file,
    it throws that error and leaves the files as they were; when the body
    is interrupted it throws the stream's error and leaves the destination
    holding the chunks delivered before the interruption. *)
Theorem downloadToTmp_failures (w : world) (url : Js.value) (filename : string) (st : state) :
  (forall e, remote w (Js.to_string url) = FetchRejected e ->
     fst (Primary.downloadToTmp w url filename st) = Threw e /\
     files (snd (Primary.downloadToTmp w url filename st)) = files st) /\
  (forall res b e,
     remote w (Js.to_string url) = FetchResponse res ->
     http_ok res = true -> http_body res = Some b ->
     disk w (path_join (tmpdir w) filename) = Some e ->
     fst (Primary.downloadToTmp w url filename st) = Threw e /\
     files (snd (Primary.downloadToTmp w url filename st)) = files st) /\
  (forall res b e,
     remote w (Js.to_string url) = FetchResponse res ->
     http_ok res = true -> http_body res = Some b ->
     disk w (path_join (tmpdir w) filename) = None ->
     failure b = Some e ->
     fst (Primary.downloadToTmp w url filename st) = Threw e /\
     files (snd (Primary.downloadToTmp w url filename st)) =
       <[path_join (tmpdir w) filename := String.concat "" (chunks b)]> (files st)) /\
  (trace (snd (Primary.downloadToTmp w url filename st)) =
     trace st ++ [EFetch (Js.to_string url)] \/
   trace (snd (Primary.downloadToTmp w url filename st)) =
     trace st ++ [EFetch (Js.to_string url); ECreate (path_join (tmpdir w) filename)]).
Proof.
  unfold Primary.downloadToTmp, Primary.pipeline, create_file, bind, perform,
    get_files, set_files, throw, ret.
  split; [|split; [|split]].
  - intros e He. rewrite He. cbn. split; reflexivity.
  - intros res b e Hres Hok Hb Hd. rewrite Hres, Hok. cbn. rewrite Hb, Hd. cbn.
    split; reflexivity.
  - intros res b e Hres Hok Hb Hd Hf. rewrite Hres, Hok. cbn. rewrite Hb, Hd. cbn.
    rewrite Hf. cbn. split; reflexivity.
  - destruct (remote w (Js.to_string url)) as [e|res]; [left; reflexivity|].
    destruct (http_ok res); cbn; [|left; reflexivity].
    destruct (http_body res) as [b|]; [|left; reflexivity].
    destruct (disk w _); cbn; [right; now rewrite <- app_assoc|].
    destruct (failure b); cbn; right; now rewrite <- app_assoc.
Qed.

Lemma downloadToTmp_failures_witness :
  fst (Primary.downloadToTmp (Demo.world_with Demo.ffmpeg_ok)
         (Js.Str "ftp://cdn.test/a.mp4") "v1_ab.mp4" Demo.empty) =
    Threw {| e_name := "TypeError"; e_message := "fetch failed" |} /\
  fst (Primary.downloadToTmp Demo.broken_world
         (Js.Str "http://cdn.test/cut.mp4") "v1_ab.mp4" Demo.empty) =
    Threw (mkError "terminated") /\
  files (snd (Primary.downloadToTmp Demo.broken_world
                (Js.Str "http://cdn.test/cut.mp4") "v1_ab.mp4" Demo.empty))
    !! "/tmp/v1_ab.mp4" = Some "first" /\
  fst (Primary.downloadToTmp Demo.broken_world
         (Js.Str "http://cdn.test/cut.mp4") "v2_ab.mp4" Demo.empty) =
    Threw (mkError "ENOSPC: no space left on device, open '/tmp/v2_ab.mp4'").
Proof.
  split; [|split; [|split]].
  - apply (proj1 (downloadToTmp_failures (Demo.world_with Demo.ffmpeg_ok)
                    (Js.Str "ftp://cdn.test/a.mp4") "v1_ab.mp4" Demo.empty)).
    reflexivity.
  - apply (proj1 (proj2 (proj2 (downloadToTmp_failures Demo.broken_world
                    (Js.Str "http://cdn.test/cut.mp4") "v1_ab.mp4" Demo.empty)))
             {| http_status := 200; http_body := Some Demo.cut_body |} Demo.cut_body);
      reflexivity.
  - destruct (proj1 (proj2 (proj2 (downloadToTmp_failures Demo.broken_world
                    (Js.Str "http://cdn.test/cut.mp4") "v1_ab.mp4" Demo.empty)))
                {| http_status := 200; http_body := Some Demo.cut_body |} Demo.cut_body
                (mkError "terminated") eq_refl eq_refl eq_refl eq_refl eq_refl) as [_ H].
    rewrite H. reflexivity.
  - apply (proj1 (proj2 (downloadToTmp_failures Demo.broken_world
                    (Js.Str "http://cdn.test/cut.mp4") "v2_ab.mp4" Demo.empty))
             {| http_status := 200; http_body := Some Demo.cut_body |} Demo.cut_body);
      reflexivity.
Defined.

(** ** The answers of the submission handlers *)

Lemma answers_ret (P : response -> Prop) (resp : response) : P resp -> answers P (ret resp).
Proof. intros H st r [= <-]. exact H. Qed.

Lemma answers_crash (P : response -> Prop) (e : js_error) : answers P (crash e).
Proof. intros st r. discriminate. Qed.

Lemma answers_throw (P : response -> Prop) (e : js_error) : answers P (throw e).
Proof. intros st r. discriminate. Qed.

Lemma answers_bind {A} (P : response -> Prop) (m : M A) (k : A -> M response) :
  (forall a, answers P (k a)) -> answers P (bind m k).
Proof.
  intros Hk st r. unfold bind.
  destruct (m st) as [[a|e| |e] st1]; cbn; try discriminate. apply Hk.
Qed.

Lemma answers_try_catch (P : response -> Prop) (m : M response) (h : js_error -> response) :
  answers P m -> (forall e, P (h e)) ->
  answers P (try_catch m (fun e => ret (h e))).
Proof.
  intros Hm Hh st r. unfold try_catch. specialize (Hm st r).
  destruct (m st) as [[a|e| |e] st1]; cbn in *; try assumption.
  intros [= <-]. apply Hh.
Qed.

Lemma unauthorized_iff (key : string) (got : option string) :
  unauthorized key got = true <-> key <> "" /\ got <> Some key.
Proof.
  unfold unauthorized. destruct (String.eqb_spec key "") as [->|Hk]; cbn.
  - split; [discriminate|]. now intros [H _].
  - destruct got as [g|]; [|split; [intros _; split; [assumption|discriminate]|reflexivity]].
    destruct (String.eqb_spec g "") as [->|Hg]; cbn.
    + split; [intros _; split; [assumption|]|reflexivity]. intros [= <-]. now destruct Hk.
    + destruct (String.eqb_spec g key) as [->|Hgk]; cbn.
      * split; [discriminate|]. intros [_ H]. now destruct H.
      * split; [intros _; split; [assumption|]|reflexivity]. intros [= ->]. now destruct Hgk.
Qed.

(** The API key gate of both servers: a submission is turned away exactly
    when a key is configured and the request does not carry that very key;
    it is then answered 401 whatever its body, and nothing is fetched,
    spawned, written or stored. *)
Theorem api_key_gate (w : world) (req : request) (id suffix : string) (now : Z) (st : state) :
  (unauthorized (API_KEY w) (req_api_key req) = true <->
   API_KEY w <> "" /\ req_api_key req <> Some (API_KEY w)) /\
  (API_KEY w <> "" -> req_api_key req <> Some (API_KEY w) ->
   Primary.post_stitch w req id now st =
     (Returned (json_response 401 (Js.Obj [("error", Js.Str "Unauthorized")])), st) /\
   Legacy.post_stitch w req suffix st =
     (Returned (json_response 401 (Js.Obj [("error", Js.Str "Unauthorized")])), st)).
Proof.
  split; [apply unauthorized_iff|].
  intros Hk Hg.
  assert (unauthorized (API_KEY w) (req_api_key req) = true) as H
    by (apply unauthorized_iff; now split).
  unfold Primary.post_stitch, Legacy.post_stitch, try_catch. rewrite H.
  split; reflexivity.
Qed.

Lemma api_key_gate_witness :
  Primary.post_stitch Demo.locked_world (Demo.post Demo.good_body) "ab" 0 Demo.empty =
    (Returned (json_response 401 (Js.Obj [("error", Js.Str "Unauthorized")])), Demo.empty).
Proof.
  apply (proj2 (api_key_gate Demo.locked_world (Demo.post Demo.good_body) "ab" "x1" 0 Demo.empty)).
  - discriminate.
  - discriminate.
Defined.

(** After the guards of a submission handler, what is left answers 200 or
    500: the chain of awaited steps ends in the 200 answer, and the catch
    clause answers 500. *)
Ltac past_the_guards H :=
  match type of H with
  | fst (try_catch ?m (fun e => ret (@?h e)) ?st) = Returned ?resp =>
      let HB := fresh "HB" in
      assert (answers (fun r => status r = 200 \/ status r = 500)%Z m) as HB
        by (repeat (apply answers_bind; intros ?);
            repeat match goal with
                   | |- answers _ (match ?x with _ => _ end) => destruct x
                   end;
            repeat (apply answers_bind; intros ?);
            first [apply answers_ret; now left|apply answers_crash|apply answers_throw]);
      apply (answers_try_catch _ m h HB (fun e => or_intror eq_refl) st resp) in H
  end.

(** The answers of the primary submission handler: 401 exactly when the
    key gate turns the request away, 400 for a validation error, and
    otherwise 200 or 500; every 401 and every 400 comes with the store, the
    files and the trace untouched, so whatever happened to a request that
    got past validation is reported as 200 or 500. *)
Theorem primary_status_codes
  (w : world) (req : request) (id : string) (now : Z) (st : state) (resp : response) :
  fst (Primary.post_stitch w req id now st) = Returned resp ->
  (status resp = 401%Z <-> unauthorized (API_KEY w) (req_api_key req) = true) /\
  (status resp = 401%Z \/ status resp = 400%Z ->
   snd (Primary.post_stitch w req id now st) = st) /\
  (status resp = 200 \/ status resp = 400 \/ status resp = 401 \/ status resp = 500)%Z.
Proof.
  unfold Primary.post_stitch.
  destruct (unauthorized _ _).
  { cbn. intros [= <-]. cbn. repeat split; auto. }
  destruct (Primary.not_http_string _).
  { cbn. intros [= <-]. cbn. repeat split; auto; discriminate. }
  destruct (negb _ || negb _).
  { cbn. intros [= <-]. cbn. repeat split; auto; discriminate. }
  destruct (Js.truthy _).
  { cbn. intros [= <-]. cbn. repeat split; auto; discriminate. }
  intros H. past_the_guards H.
  repeat split; try discriminate; try lia.
Qed.

Lemma primary_status_codes_witness :
  snd (Primary.post_stitch (Demo.world_with Demo.ffmpeg_ok)
         (Demo.post Demo.malformed_body) "ab" 0 Demo.empty) = Demo.empty.
Proof.
  apply (proj1 (proj2 (primary_status_codes (Demo.world_with Demo.ffmpeg_ok)
                         (Demo.post Demo.malformed_body) "ab" 0 Demo.empty
                         (json_response 400
                            (Js.Obj [("error", Js.Str "audioUrl/narrationUrl missing/invalid");
                                     ("audioUrl", Js.Str "ftp://cdn.test/n.mp3")]))
                         eq_refl))).
  right. reflexivity.
Defined.

(** The answers of the submission handler of [server.js]: 401 exactly when
    the key gate turns the request away, 400 for a validation error, and
    otherwise 200 or 500; every 401 and every 400 comes with the files and
    the trace untouched. A request with no body at all is not a validation
    error: destructuring it throws, and the answer is 500, again with
    nothing touched. *)
Theorem legacy_status_codes
  (w : world) (req : request) (suffix : string) (st : state) (resp : response) :
  fst (Legacy.post_stitch w req suffix st) = Returned resp ->
  (status resp = 401%Z <-> unauthorized (API_KEY w) (req_api_key req) = true) /\
  (status resp = 401%Z \/ status resp = 400%Z ->
   snd (Legacy.post_stitch w req suffix st) = st) /\
  (status resp = 200 \/ status resp = 400 \/ status resp = 401 \/ status resp = 500)%Z /\
  (unauthorized (API_KEY w) (req_api_key req) = false ->
   Js.nullish (req_body req) = true ->
   status resp = 500%Z /\ snd (Legacy.post_stitch w req suffix st) = st).
Proof.
  unfold Legacy.post_stitch.
  destruct (unauthorized _ _).
  { cbn. intros [= <-]. cbn. repeat split; auto; discriminate. }
  destruct (Js.nullish _).
  { cbn. intros [= <-]. cbn. repeat split; auto; discriminate. }
  destruct (negb _ || negb _).
  { cbn. intros [= <-]. cbn. repeat split; auto; discriminate. }
  destruct (negb _ || negb _).
  { cbn. intros [= <-]. cbn. repeat split; auto; discriminate. }
  intros H. past_the_guards H.
  repeat split; try discriminate; try lia.
Qed.

Lemma legacy_status_codes_witness :
  status (json_response 500
            (Js.Obj [("error",
                      Js.Str "Cannot destructure property 'videos' of 'req.body' as it is undefined.")]))
    = 500%Z /\
  snd (Legacy.post_stitch (Demo.world_with Demo.ffmpeg_ok) (Demo.post Js.Undefined) "x1" Demo.empty)
    = Demo.empty.
Proof.
  apply (proj2 (proj2 (proj2 (legacy_status_codes (Demo.world_with Demo.ffmpeg_ok)
                                (Demo.post Js.Undefined) "x1" Demo.empty
                                (json_response 500
                                   (Js.Obj [("error",
                                             Js.Str "Cannot destructure property 'videos' of 'req.body' as it is undefined.")]))
                                eq_refl))));
    reflexivity.
Defined.

(** ** The success path of the primary handler *)

Lemma for_each_unlink_files (ps : list string) (st : state) (p : string) :
  p ∈ ps \/ files st !! p = None ->
  files (snd (for_each unlink_quiet ps st)) !! p = None.
Proof.
  revert st. induction ps as [|x ps IH]; intros st H.
  - destruct H as [H|H]; [now apply elem_of_nil in H|exact H].
  - cbn [for_each]. rewrite bind_run, unlink_quiet_run. apply IH. cbn [files].
    destruct H as [H|H].
    + apply elem_of_cons in H as [->|H]; [right; apply lookup_delete_eq|now left].
    + right. destruct (decide (x = p)) as [->|Hne];
        [apply lookup_delete_eq|now rewrite lookup_delete_ne].
Qed.

Lemma for_each_unlink_results (ps : list string) (st : state) :
  fst (for_each unlink_quiet ps st) = Returned tt /\
  results (snd (for_each unlink_quiet ps st)) = results st.
Proof.
  destruct (for_each_unlink_run ps st) as [fs H]. rewrite H. now split.
Qed.

Lemma success_state_after (w : world) (req : request) (id : string) (now : Z) st st1 o st' :
  step_ok any_effect st st1 ->
  success_state w req id now st1 o st' ->
  success_state w req id now st o st'.
Proof.
  intros [Hr _] (Ho & Hres & Hfiles). split; [assumption|].
  split; [now rewrite Hres, Hr|assumption].
Qed.

Lemma success_state_returned (w : world) (req : request) (id : string) (now : Z) st o st' :
  success_state w req id now st o st' -> exists resp, o = Returned resp.
Proof. intros (Ho & _). now exists (submitted req id). Qed.

Lemma post_stitch_success (w : world) (req : request) (id : string) (now : Z) :
  staged any_effect (success_state w req id now) (Primary.post_stitch w req id now).
Proof.
  unfold Primary.post_stitch.
  apply (staged_try_catch any_effect (success_state w req id now)
           (success_state_returned w req id now) _
           (fun e => json_response 500 (Js.Obj [("error", Js.Str (error_text e))]))).
  { intros e. cbn. lia. }
  early_answers.
  next_stage (success_state_after w req id now) obeys_downloadToTmp. intros v1 Hv1.
  next_stage (success_state_after w req id now) obeys_downloadToTmp. intros v2 Hv2.
  next_stage (success_state_after w req id now) obeys_downloadToTmp. intros v3 Hv3.
  next_stage (success_state_after w req id now) obeys_downloadToTmp. intros a1 Ha1.
  next_stage (success_state_after w req id now) obeys_create_file. intros _ _.
  next_stage (success_state_after w req id now) obeys_runFFmpeg.
  intros _ _. cbv beta in Hv1, Hv2, Hv3, Ha1. subst v1 v2 v3 a1.
  intros st. rewrite bind_run.
  match goal with
  | |- context [Primary.runFFmpeg w ?args st] =>
      destruct (runFFmpeg_run w args st) as (p & fs & Hrun); rewrite Hrun
  end.
  destruct p as [| |msg|e]; cbn [await_outcome fst snd].
  2: {
    rewrite bind_run, unlink_quiet_run, bind_run. cbn [Primary.results_set].
    rewrite bind_run.
    match goal with
    | |- context [for_each unlink_quiet ?ps ?s] =>
        pose proof (for_each_unlink_results ps s) as [Hfe Hres];
        pose proof (for_each_unlink_files ps s) as Hfiles;
        destruct (for_each unlink_quiet ps s) as [o s'] eqn:E
    end.
    cbn [fst snd] in *. subst o. cbn [ret fst snd].
    right. split; [reflexivity|]. split; [now rewrite Hres|].
    intros q Hq. apply Hfiles. unfold scratch_inputs in Hq.
    rewrite !elem_of_cons in Hq. rewrite !elem_of_cons.
    destruct Hq as [->|[->|[->|[->|[->|[->|Hq]]]]]];
      try (now apply elem_of_nil in Hq); auto 10.
    right. cbn [files]. apply lookup_delete_eq. }
  all: left; (split; [intros r; discriminate|]); (split; [reflexivity|]);
    eexists; (split; [reflexivity|reflexivity]).
Qed.

(** A submission that the primary handler answers 200 is answered with the
    job's identifier and the url [<protocol>://<host>/result/<id>]; the
    store holds the job's entry, and none of the six scratch files of the
    job, the three videos, the narration, the list file and the base clip,
    is left on disk. *)
Theorem success_leaves_no_scratch_input
  (w : world) (req : request) (id : string) (now : Z) (st : state) (resp : response) :
  fst (Primary.post_stitch w req id now st) = Returned resp ->
  status resp = 200%Z ->
  resp = submitted req id /\
  results (snd (Primary.post_stitch w req id now st)) !! id =
    Some {| filePath := outPath w id; expiresAt := now + Primary.RESULT_TTL_MS |} /\
  forall p, p ∈ scratch_inputs w id ->
            files (snd (Primary.post_stitch w req id now st)) !! p = None.
Proof.
  intros Hresp Hok.
  destruct (post_stitch_success w req id now st) as [[Hno _]|(Ho & Hres & Hfiles)].
  - now destruct (Hno resp Hresp).
  - rewrite Hresp in Ho. injection Ho as ->.
    split; [reflexivity|]. split; [|assumption].
    rewrite Hres. apply lookup_insert_eq.
Qed.

Lemma success_leaves_no_scratch_input_witness :
  files Demo.after_job !! "/tmp/v1_ab.mp4" = None /\
  files Demo.after_job !! "/tmp/base_ab.mp4" = None.
Proof.
  destruct (success_leaves_no_scratch_input (Demo.world_with Demo.ffmpeg_ok)
              (Demo.post Demo.good_body) "ab" 0 Demo.empty
              (submitted (Demo.post Demo.good_body) "ab") eq_refl eq_refl)
    as (_ & _ & H).
  split; apply H; unfold scratch_inputs; rewrite !elem_of_cons; auto 10.
Defined.

(** Submission and retrieval compose: after a 200 answer, a retrieval of
    the identifier in that answer finds the entry, and streams the final
    file of the job whenever ffmpeg left one. *)
Theorem submitted_job_is_retrievable
  (w : world) (req : request) (id : string) (now : Z) (st : state) (resp : response) :
  fst (Primary.post_stitch w req id now st) = Returned resp ->
  status resp = 200%Z ->
  fst (Primary.get_result (request_for id) (snd (Primary.post_stitch w req id now st)))
    <> not_found /\
  forall content,
    files (snd (Primary.post_stitch w req id now st)) !! outPath w id = Some content ->
    fst (Primary.get_result (request_for id) (snd (Primary.post_stitch w req id now st)))
      = artifact_response id content.
Proof.
  intros Hresp Hok.
  destruct (post_stitch_success w req id now st) as [[Hno _]|(_ & Hres & _)].
  - now destruct (Hno resp Hresp).
  - assert (results (snd (Primary.post_stitch w req id now st)) !! req_id (request_for id) =
            Some {| filePath := outPath w id; expiresAt := now + Primary.RESULT_TTL_MS |})
      as Hid by (rewrite Hres; apply lookup_insert_eq).
    exact (get_result_present (request_for id) _ _ Hid).
Qed.

Lemma submitted_job_is_retrievable_witness :
  fst (Primary.get_result (request_for "ab") Demo.after_job) = artifact_response "ab" "mp4".
Proof.
  apply (proj2 (submitted_job_is_retrievable (Demo.world_with Demo.ffmpeg_ok)
                  (Demo.post Demo.good_body) "ab" 0 Demo.empty
                  (submitted (Demo.post Demo.good_body) "ab") eq_refl eq_refl)).
  vm_compute. reflexivity.
Defined.

(** ** Isolation of jobs *)

(** Two scratch names are compared past the scratch directory and the
    literal prefix of their role. *)
Ltac compare_names H :=
  unfold v1Path, v2Path, v3Path, narrPath, listPath, basePath, outPath, path_join in H;
  do 2 apply append_inj_l in H;
  repeat rewrite append_cons in H; rewrite ?append_nil_l in H;
  first [discriminate H
        |injection H as H; apply append_inj_r in H; exact H].

Lemma job_paths_disjoint (w : world) (id id' p : string) :
  p ∈ job_paths w id -> p ∈ job_paths w id' -> id' = id.
Proof.
  unfold job_paths, scratch_inputs. cbn [app]. rewrite !elem_of_cons.
  intros H1 H2.
  destruct H1 as [->|[->|[->|[->|[->|[->|[->|H1]]]]]]];
    try (now apply elem_of_nil in H1);
    destruct H2 as [H2|[H2|[H2|[H2|[H2|[H2|[H2|H2]]]]]]];
    try (now apply elem_of_nil in H2);
    symmetry in H2; compare_names H2.
Qed.

Lemma obeys_create_file_ok (allowed : effect -> bool) (w : world) (p content : string) :
  allowed (ECreate p) = true ->
  obeys allowed (create_file w p content) (fun _ => disk w p = None).
Proof.
  intros He. unfold create_file.
  eapply obeys_bind; [apply obeys_perform, He|]. intros _ _.
  destruct (disk w p) eqn:Hd; [apply obeys_throw|].
  eapply obeys_bind; [apply obeys_get_files|]. intros fs _.
  eapply obeys_weaken; [apply obeys_set_files|]. reflexivity.
Qed.

Lemma obeys_downloadToTmp_at (allowed : effect -> bool) (w : world) (url : Js.value)
  (filename : string) :
  (forall u, allowed (EFetch u) = true) ->
  allowed (ECreate (path_join (tmpdir w) filename)) = true ->
  obeys allowed (Primary.downloadToTmp w url filename)
    (fun p => p = path_join (tmpdir w) filename /\
              fetched_ok w url (path_join (tmpdir w) filename)).
Proof.
  intros Hf Hc. unfold Primary.downloadToTmp.
  eapply obeys_bind; [apply obeys_perform, Hf|]. intros _ _.
  destruct (remote w (Js.to_string url)) as [e|res] eqn:Hres; [apply obeys_throw|].
  destruct (http_ok res) eqn:Hok; cbn [negb]; [|apply obeys_throw].
  destruct (http_body res) as [b|] eqn:Hb; [|apply obeys_throw].
  eapply (obeys_bind allowed _ _
            (fun _ => failure b = None /\ disk w (path_join (tmpdir w) filename) = None)).
  - unfold Primary.pipeline.
    eapply obeys_bind; [apply obeys_create_file_ok, Hc|]. intros u Hd.
    cbv beta in Hd.
    destruct (failure b) eqn:Hfl; [apply obeys_throw|].
    apply obeys_ret. now split.
  - intros u H. cbv beta in H. destruct H as [Hfl Hd].
    apply obeys_ret. split; [reflexivity|].
    exists res, b. repeat (split; [assumption|]). assumption.
Qed.

Lemma obeys_runFFmpeg_at (allowed : effect -> bool) (w : world) (args : list string) :
  allowed (ESpawn "ffmpeg" args) = true ->
  (forall p, allowed (EAwait p) = true) ->
  obeys allowed (Primary.runFFmpeg w args) (fun _ => True).
Proof.
  intros Hs Ha. unfold Primary.runFFmpeg.
  eapply obeys_bind; [apply obeys_spawn_process, Hs|]. intros evs _.
  eapply obeys_weaken; [apply obeys_await_promise, Ha|]. trivial.
Qed.

(** An event is one of job [id]'s own. *)
Ltac own_ok :=
  cbn [own_effect];
  first [reflexivity
        |apply bool_decide_eq_true_2;
         first [reflexivity
               |split; [reflexivity|first [left; reflexivity|right; reflexivity]]
               |unfold created_paths, scratch_inputs, v1Path, v2Path, v3Path,
                  narrPath, listPath, basePath;
                rewrite !elem_of_cons; auto 10]].

Lemma own_run_after (w : world) (id : string) st st1 o st' :
  step_ok (own_effect w id) st st1 -> own_run w id st1 o st' -> own_run w id st o st'.
Proof.
  intros [_ (t0 & Ht0 & Hn0)] (Ho & t & Ht & Hn). split; [assumption|].
  exists (t0 ++ t). split; [now rewrite Ht, Ht0, app_assoc|].
  rewrite forallb_app. now rewrite Hn0, Hn.
Qed.

Lemma own_run_returned (w : world) (id : string) st o st' :
  own_run w id st o st' -> exists resp, o = Returned resp.
Proof. now intros [H _]. Qed.

Lemma post_stitch_own (w : world) (req : request) (id : string) (now : Z) :
  staged (own_effect w id) (own_run w id) (Primary.post_stitch w req id now).
Proof.
  unfold Primary.post_stitch.
  apply (staged_try_catch (own_effect w id) (own_run w id)
           (own_run_returned w id) _
           (fun e => json_response 500 (Js.Obj [("error", Js.Str (error_text e))]))).
  { intros e. cbn. lia. }
  early_answers.
  do 4 (eapply staged_bind;
        [exact (own_run_after w id)
        |apply obeys_downloadToTmp_at; [reflexivity|own_ok]
        |intros ? Hp; cbv beta in Hp; destruct Hp as [-> _]]).
  eapply staged_bind;
    [exact (own_run_after w id)|apply obeys_create_file; own_ok|intros _ _].
  eapply staged_bind;
    [exact (own_run_after w id)
    |apply obeys_runFFmpeg_at; [own_ok|reflexivity]|intros _ _].
  intros st. rewrite bind_run.
  match goal with
  | |- context [Primary.runFFmpeg w ?args st] =>
      destruct (runFFmpeg_run w args st) as (p & fs & Hrun); rewrite Hrun
  end.
  destruct p as [| |msg|e]; cbn [await_outcome fst snd].
  2: {
    rewrite bind_run, unlink_quiet_run, bind_run. cbn [Primary.results_set].
    rewrite bind_run.
    match goal with
    | |- context [for_each unlink_quiet ?ps ?s] =>
        destruct (for_each_unlink_run ps s) as [fs' Hfe]; rewrite Hfe
    end.
    cbn [ret fst snd results files trace map].
    right. split; [eexists; reflexivity|].
    eexists. split; [rewrite <- !app_assoc; reflexivity|].
    cbn [app forallb]. repeat (apply andb_true_intro; split); try own_ok. }
  all: left; (split; [intros r; discriminate|]); (split; [reflexivity|]);
    eexists; (split; [reflexivity|]);
    cbn [forallb]; repeat (apply andb_true_intro; split); try own_ok.
Qed.

(** Jobs are isolated in the primary server. Whatever a submission for job
    [id] does, the files it creates are among the job's five inputs, the
    files it deletes among its six scratch files, the only store it makes
    is under [id], the only program it spawns is ffmpeg with the base or
    the final argument list of the job, and it makes no directory, removes
    none and reads no file; and no path of one job is a path of a job with
    another identifier. *)
Theorem jobs_are_isolated (w : world) (req : request) (id : string) (now : Z) (st : state) :
  (exists t,
     trace (snd (Primary.post_stitch w req id now st)) = trace st ++ t /\
     forallb (own_effect w id) t = true) /\
  (forall id' p, p ∈ job_paths w id -> p ∈ job_paths w id' -> id' = id).
Proof.
  split; [|intros id' p; apply job_paths_disjoint].
  destruct (post_stitch_own w req id now st) as [[_ [_ H]]|[_ H]]; exact H.
Qed.

Lemma jobs_are_isolated_witness :
  forallb (own_effect (Demo.world_with Demo.ffmpeg_ok) "ab") (trace Demo.after_job) = true.
Proof.
  destruct (jobs_are_isolated (Demo.world_with Demo.ffmpeg_ok) (Demo.post Demo.good_body)
              "ab" 0 Demo.empty) as [(t & Ht & Hown) _].
  cbn [trace Demo.empty app] in Ht. unfold Demo.after_job. rewrite Ht. exact Hown.
Defined.

(** ** ffmpeg starts only on fetched inputs *)

Lemma staged_try_catch_any (allowed : effect -> bool) (G : Prop)
  (m : M response) (h : js_error -> response) :
  (forall e, status (h e) <> 200%Z) ->
  staged allowed (fun _ _ _ => G) m ->
  staged allowed (fun _ _ _ => G) (try_catch m (fun e => ret (h e))).
Proof.
  intros Hh Hm st. unfold try_catch. specialize (Hm st).
  destruct (m st) as [[a|e| |e] st1]; cbn in *; try assumption.
  destruct Hm as [[_ Hs]|Hg]; [|now right].
  left. split; [|assumption]. intros r [= <-]. apply Hh.
Qed.

Lemma post_stitch_inputs (w : world) (req : request) (id : string) (now : Z) :
  staged no_spawn (fun _ _ _ => inputs_fetched w req id) (Primary.post_stitch w req id now).
Proof.
  unfold Primary.post_stitch.
  apply (staged_try_catch_any no_spawn (inputs_fetched w req id) _
           (fun e => json_response 500 (Js.Obj [("error", Js.Str (error_text e))]))).
  { intros e. cbn. lia. }
  early_answers.
  eapply staged_bind;
    [trivial|apply obeys_downloadToTmp_at; reflexivity|intros v1 H1; cbv beta in H1].
  eapply staged_bind;
    [trivial|apply obeys_downloadToTmp_at; reflexivity|intros v2 H2; cbv beta in H2].
  eapply staged_bind;
    [trivial|apply obeys_downloadToTmp_at; reflexivity|intros v3 H3; cbv beta in H3].
  eapply staged_bind;
    [trivial|apply obeys_downloadToTmp_at; reflexivity|intros a1 H4; cbv beta in H4].
  intros st. right.
  repeat split; [apply H1|apply H2|apply H3|apply H4].
Qed.

Lemma no_spawn_in (t : list effect) (c : string) (a : list string) :
  forallb no_spawn t = true -> ~ In (ESpawn c a) t.
Proof.
  intros H Hin. rewrite forallb_forall in H. specialize (H _ Hin). discriminate.
Qed.

(** The primary handler never starts ffmpeg for a job whose inputs are not
    all there: if a run spawned anything, then each of the three videos
    and the narration had been answered with a success status and a body
    that ended without error, and the disk had accepted its scratch file. *)
Theorem ffmpeg_starts_only_on_fetched_inputs
  (w : world) (req : request) (id : string) (now : Z) (st : state)
  (t : list effect) (c : string) (a : list string) :
  trace (snd (Primary.post_stitch w req id now st)) = trace st ++ t ->
  In (ESpawn c a) t ->
  inputs_fetched w req id.
Proof.
  intros Ht Hin.
  destruct (post_stitch_inputs w req id now st) as [[_ [_ (t0 & Ht0 & Hno)]]|H];
    [|exact H].
  rewrite Ht in Ht0. apply app_inv_head in Ht0. subst t0.
  now destruct (no_spawn_in t c a Hno).
Qed.

Lemma ffmpeg_starts_only_on_fetched_inputs_witness :
  inputs_fetched (Demo.world_with Demo.ffmpeg_ok) (Demo.post Demo.good_body) "ab".
Proof.
  apply (ffmpeg_starts_only_on_fetched_inputs (Demo.world_with Demo.ffmpeg_ok)
           (Demo.post Demo.good_body) "ab" 0 Demo.empty (trace Demo.after_job)
           "ffmpeg" (Primary.baseArgs "/tmp/list_ab.txt" "/tmp/base_ab.mp4")).
  - reflexivity.
  - vm_compute. auto 20.
Defined.

(** ** An invariant of the result store *)

Lemma outPath_inj (w : world) (id id' : string) : outPath w id = outPath w id' -> id = id'.
Proof. intros H. compare_names H. Qed.

Lemma post_stitch_well_keyed (w : world) (req : request) (id : string) (now : Z) (st : state) :
  well_keyed w st -> well_keyed w (snd (Primary.post_stitch w req id now st)).
Proof.
  intros Hst k m.
  destruct (post_stitch_staged w req id now st) as [[_ [Hres _]]|(_ & Hres & _)];
    rewrite Hres; [apply Hst|].
  destruct (decide (id = k)) as [->|Hne].
  - rewrite lookup_insert_eq. now intros [= <-].
  - rewrite lookup_insert_ne by assumption. apply Hst.
Qed.

Lemma sweep_well_keyed (w : world) (now : Z) (st : state) :
  well_keyed w st -> well_keyed w (snd (Primary.cleanupResults now st)).
Proof.
  intros Hst k m. rewrite cleanupResults_lookup.
  destruct (results st !! k) as [m'|] eqn:E; [|discriminate].
  destruct (expiresAt m' <=? now)%Z; [discriminate|]. intros [= <-]. now apply Hst.
Qed.

Lemma get_result_well_keyed (w : world) (req : request) (st : state) :
  well_keyed w st -> well_keyed w (snd (Primary.get_result req st)).
Proof. intros Hst k m. rewrite (proj1 (get_result_frame req st)). apply Hst. Qed.

Lemma sweep_keeps_live_files (w : world) (now : Z) (st : state) (id : string) (m : result_entry) :
  well_keyed w st ->
  results (snd (Primary.cleanupResults now st)) !! id = Some m ->
  files (snd (Primary.cleanupResults now st)) !! filePath m = files st !! filePath m.
Proof.
  intros Hst Hid. rewrite cleanupResults_lookup in Hid.
  destruct (results st !! id) as [m0|] eqn:E; [|discriminate].
  destruct (expiresAt m0 <=? now)%Z eqn:Hlive; [discriminate|]. injection Hid as ->.
  unfold Primary.cleanupResults. cbn [snd]. rewrite sweep_fold_files.
  destruct (expired_file_in now (filePath m) (map_to_list (results st))) eqn:X;
    [|reflexivity].
  exfalso. apply existsb_exists in X as ([k m'] & Hin & Hkm). cbn in Hkm.
  apply andb_true_iff in Hkm as [Hp Hexp]. apply String.eqb_eq in Hp.
  apply list_elem_of_In, elem_of_map_to_list in Hin.
  rewrite (Hst _ _ Hin), (Hst _ _ E) in Hp. apply outPath_inj in Hp. subst k.
  rewrite E in Hin. injection Hin as <-. congruence.
Qed.

(** The primary server keeps every entry of the store pointing at the
    final file of its own identifier: a submission, a sweep and a
    retrieval each preserve this. While it holds, a sweep deletes no file
    of an entry it keeps. *)
Theorem store_stays_well_keyed
  (w : world) (req : request) (id : string) (now : Z) (st : state) :
  well_keyed w st ->
  well_keyed w (snd (Primary.post_stitch w req id now st)) /\
  well_keyed w (snd (Primary.cleanupResults now st)) /\
  well_keyed w (snd (Primary.get_result req st)) /\
  forall k m,
    results (snd (Primary.cleanupResults now st)) !! k = Some m ->
    files (snd (Primary.cleanupResults now st)) !! filePath m = files st !! filePath m.
Proof.
  intros Hst. split; [now apply post_stitch_well_keyed|].
  split; [now apply sweep_well_keyed|]. split; [now apply get_result_well_keyed|].
  intros k m. now apply (sweep_keeps_live_files w).
Qed.

Lemma well_keyed_empty (w : world) : well_keyed w Demo.empty.
Proof. intros k m. cbn. now rewrite lookup_empty. Qed.

Lemma store_stays_well_keyed_witness :
  well_keyed (Demo.world_with Demo.ffmpeg_ok) Demo.after_job.
Proof.
  apply (store_stays_well_keyed (Demo.world_with Demo.ffmpeg_ok)
           (Demo.post Demo.good_body) "ab" 0 Demo.empty).
  apply well_keyed_empty.
Defined.

Lemma serve_all_keeps_artifact (w : world) (cs : list call) (st : state)
  (id : string) (meta : result_entry) (content : string) :
  forallb (sweeps_before (expiresAt meta)) cs = true ->
  well_keyed w st ->
  results st !! id = Some meta ->
  files st !! filePath meta = Some content ->
  well_keyed w (snd (serve_all cs st)) /\
  results (snd (serve_all cs st)) !! id = Some meta /\
  files (snd (serve_all cs st)) !! filePath meta = Some content.
Proof.
  revert st. induction cs as [|c cs IH]; intros st Hcs Hst Hid Hfile; [auto|].
  cbn [forallb] in Hcs. apply andb_true_iff in Hcs as [Hc Hcs].
  cbn [serve_all fst snd]. apply IH; [assumption| | |].
  - destruct c as [now|now id']; cbn [serve snd];
      [now apply sweep_well_keyed|now apply get_result_well_keyed].
  - now apply serve_keeps_live.
  - pose proof (serve_keeps_live c st id meta Hc Hid) as Hlive.
    destruct c as [now|now id']; cbn [serve snd] in *.
    + now rewrite (sweep_keeps_live_files w now st id meta Hst Hlive).
    + now rewrite (proj2 (get_result_frame _ _)).
Qed.

(** A published artifact is served intact until it expires: in a store
    whose entries point at their own final files, an entry whose file
    exists is answered with that file after any sequence of retrievals and
    of sweeps that run before its expiry, whatever other entries those
    sweeps evict. *)
Theorem live_artifact_survives_sweeps
  (w : world) (cs : list call) (st : state) (id : string) (meta : result_entry)
  (content : string) (now : Z) :
  well_keyed w st ->
  results st !! id = Some meta ->
  files st !! filePath meta = Some content ->
  forallb (sweeps_before (expiresAt meta)) cs = true ->
  fst (serve (Retrieve now id) (snd (serve_all cs st))) =
    Some (artifact_response id content).
Proof.
  intros Hst Hid Hfile Hcs.
  destruct (serve_all_keeps_artifact w cs st id meta content Hcs Hst Hid Hfile)
    as (_ & Hid' & Hfile').
  cbn [serve fst]. f_equal.
  now apply (proj2 (get_result_present (request_for id) _ meta Hid')).
Qed.

Lemma live_artifact_survives_sweeps_witness :
  fst (serve (Retrieve 1799999 "ab")
         (snd (serve_all [Sweep 60000; Retrieve 60001 "cd"; Sweep 120000] Demo.after_job))) =
    Some (artifact_response "ab" "mp4").
Proof.
  apply (live_artifact_survives_sweeps (Demo.world_with Demo.ffmpeg_ok)
           [Sweep 60000; Retrieve 60001 "cd"; Sweep 120000] Demo.after_job "ab"
           {| filePath := "/tmp/final_ab.mp4"; expiresAt := 0 + Primary.RESULT_TTL_MS |}
           "mp4" 1799999).
  - apply (post_stitch_well_keyed (Demo.world_with Demo.ffmpeg_ok)
             (Demo.post Demo.good_body) "ab" 0 Demo.empty), well_keyed_empty.
  - vm_compute. reflexivity.
  - vm_compute. reflexivity.
  - reflexivity.
Defined.

(** ** Sweeps compose *)

Lemma expired_file_in_iff (now : Z) (p : string) (r : gmap string result_entry) :
  expired_file_in now p (map_to_list r) = true <->
  exists k m, r !! k = Some m /\ filePath m = p /\ (expiresAt m <= now)%Z.
Proof.
  unfold expired_file_in. rewrite existsb_exists. split.
  - intros ([k m] & Hin & H). cbn in H. apply andb_true_iff in H as [Hp He].
    exists k, m. split; [now apply elem_of_map_to_list, list_elem_of_In|].
    split; [now apply String.eqb_eq|now apply Z.leb_le].
  - intros (k & m & Hk & Hp & He). exists (k, m).
    split; [now apply list_elem_of_In, elem_of_map_to_list|].
    cbn. apply andb_true_iff. split; [now apply String.eqb_eq|now apply Z.leb_le].
Qed.

Lemma sweep_files_lookup (now : Z) (st : state) (p : string) :
  files (snd (Primary.cleanupResults now st)) !! p =
  if expired_file_in now p (map_to_list (results st)) then None else files st !! p.
Proof. unfold Primary.cleanupResults. cbn [snd]. apply sweep_fold_files. Qed.

Lemma sweeps_compose_results (t1 t2 : Z) (st : state) :
  results (snd (Primary.cleanupResults t2 (snd (Primary.cleanupResults t1 st)))) =
  results (snd (Primary.cleanupResults (Z.max t1 t2) st)).
Proof.
  apply map_eq. intros k. rewrite !cleanupResults_lookup.
  destruct (results st !! k) as [m|]; [|reflexivity].
  destruct (Z.leb_spec (expiresAt m) t1) as [H1|H1];
    destruct (Z.leb_spec (expiresAt m) (Z.max t1 t2)) as [H3|H3];
    try reflexivity; try lia;
    destruct (Z.leb_spec (expiresAt m) t2) as [H2|H2]; try reflexivity; lia.
Qed.

Lemma sweeps_compose_files (t1 t2 : Z) (st : state) :
  files (snd (Primary.cleanupResults t2 (snd (Primary.cleanupResults t1 st)))) =
  files (snd (Primary.cleanupResults (Z.max t1 t2) st)).
Proof.
  apply map_eq. intros p. rewrite !sweep_files_lookup.
  destruct (expired_file_in (Z.max t1 t2) p (map_to_list (results st))) eqn:X3.
  - apply expired_file_in_iff in X3 as (k & m & Hk & Hp & He).
    destruct (Z.le_gt_cases (expiresAt m) t1) as [H1|H1].
    + assert (expired_file_in t1 p (map_to_list (results st)) = true) as ->
        by (apply expired_file_in_iff; eauto).
      now destruct (expired_file_in t2 p _).
    + assert (expired_file_in t2 p
                (map_to_list (results (snd (Primary.cleanupResults t1 st)))) = true) as ->;
        [|reflexivity].
      apply expired_file_in_iff. exists k, m. split; [|split; [assumption|lia]].
      rewrite cleanupResults_lookup, Hk.
      now rewrite (proj2 (Z.leb_gt _ _)) by lia.
  - assert (expired_file_in t1 p (map_to_list (results st)) = false) as ->.
    { destruct (expired_file_in t1 p _) eqn:X1; [|reflexivity].
      apply expired_file_in_iff in X1 as (k & m & Hk & Hp & He).
      assert (expired_file_in (Z.max t1 t2) p (map_to_list (results st)) = true) as E
        by (apply expired_file_in_iff; exists k, m; repeat split; auto; lia).
      congruence. }
    assert (expired_file_in t2 p
              (map_to_list (results (snd (Primary.cleanupResults t1 st)))) = false) as ->;
      [|reflexivity].
    destruct (expired_file_in t2 p _) eqn:X2; [|reflexivity].
    apply expired_file_in_iff in X2 as (k & m & Hk & Hp & He).
    rewrite cleanupResults_lookup in Hk.
    destruct (results st !! k) as [m'|] eqn:Hk'; [|discriminate].
    destruct (expiresAt m' <=? t1)%Z; [discriminate|]. injection Hk as ->.
    assert (expired_file_in (Z.max t1 t2) p (map_to_list (results st)) = true) as E
      by (apply expired_file_in_iff; exists k, m; repeat split; auto; lia).
    congruence.
Qed.

(** Two sweeps in a row leave the store and the files as one sweep at the
    later of the two clock readings would: in particular a sweep is
    idempotent, and a sweep with an earlier clock after one with a later
    clock changes nothing. *)
Theorem sweeps_compose (t1 t2 : Z) (st : state) :
  results (snd (Primary.cleanupResults t2 (snd (Primary.cleanupResults t1 st)))) =
    results (snd (Primary.cleanupResults (Z.max t1 t2) st)) /\
  files (snd (Primary.cleanupResults t2 (snd (Primary.cleanupResults t1 st)))) =
    files (snd (Primary.cleanupResults (Z.max t1 t2) st)).
Proof. split; [apply sweeps_compose_results|apply sweeps_compose_files]. Qed.

(** ** The scratch directory of the older server *)










(** ** What validation rejects, exactly *)

Lemma not_three_check_inv (v : Js.value) :
  negb (Js.is_array v) || negb (Nat.eqb (length (Js.elements v)) 3) = true ->
  not_three v.
Proof.
  intros H l ->. cbn in H. intros Hl. rewrite Hl in H. discriminate.
Qed.

Lemma passed_array_check (v : Js.value) :
  negb (Js.is_array v) || negb (Nat.eqb (length (Js.elements v)) 3) = false ->
  exists l, v = Js.Arr l.
Proof.
  destruct v as [| |b|n|s|l|fs]; try discriminate. intros _. now exists l.
Qed.

Lemma find_truthy_offender (l : list Js.value) :
  Js.truthy (Js.find Primary.not_http_string l) = true ->
  first_offender_truthy (Js.Arr l).
Proof.
  induction l as [|x l IH]; [discriminate|]. cbn [Js.find].
  destruct (Primary.not_http_string x) eqn:Hx.
  - intros Ht. exists [], x, l. split; [reflexivity|]. split; [intros y []|].
    split; [now apply not_http_string_true|assumption].
  - intros Ht. destruct (IH Ht) as (pre & bad & post & Hl & Hpre & Hbad & Htr).
    injection Hl as ->. exists (x :: pre), bad, post.
    split; [reflexivity|]. split; [|now split].
    intros y [<-|Hy]; [now apply not_http_string_false|now apply Hpre].
Qed.

Lemma offender_found (v : Js.value) :
  first_offender_truthy v ->
  Js.truthy (Js.find Primary.not_http_string (Js.elements v)) = true.
Proof.
  intros (pre & bad & post & -> & Hpre & Hbad & Htr). cbn [Js.elements].
  now rewrite (find_first_offender pre post bad Hpre Hbad).
Qed.

(** Validation in the primary handler, in full: a submission that passes
    the key gate is answered with a validation error exactly when the
    narration value is not a string beginning with [http], or the video
    value is not an array of exactly three elements, or the first of its
    entries that is not a string beginning with [http] is truthy. Any
    other submission goes on to the fetches; in particular one whose first
    offending entry is empty, null, zero or false. *)
Theorem primary_validation_rejects_exactly
  (w : world) (req : request) (id : string) (now : Z) (st : state) :
  unauthorized (API_KEY w) (req_api_key req) = false ->
  (is_validation_error (fst (Primary.post_stitch w req id now st)) <->
   lacks_http_prefix (audio_of (req_body req)) \/
   not_three (videos_of (req_body req)) \/
   first_offender_truthy (videos_of (req_body req))).
Proof.
  intros Hauth. unfold Primary.post_stitch. rewrite Hauth.
  fold (audio_of (req_body req)). fold (videos_of (req_body req)).
  destruct (Primary.not_http_string (audio_of (req_body req))) eqn:Ha.
  { split; [intros _; left; now apply not_http_string_true|].
    intros _. cbn. eexists; reflexivity. }
  destruct (negb (Js.is_array (videos_of (req_body req))) ||
            negb (Nat.eqb (length (Js.elements (videos_of (req_body req)))) 3)) eqn:Hv.
  { split; [intros _; right; left; now apply not_three_check_inv|].
    intros _. cbn. eexists; reflexivity. }
  destruct (Js.truthy (Js.find Primary.not_http_string
                         (Js.elements (videos_of (req_body req))))) eqn:Ht.
  { split; [|intros _; cbn; eexists; reflexivity].
    intros _. right. right. destruct (passed_array_check _ Hv) as [l Hl].
    rewrite Hl in *. now apply find_truthy_offender. }
  split.
  - intros [err H]. past_the_guards H. cbn in H. lia.
  - intros [H|[H|H]]; exfalso.
    + apply not_http_string_true in H. congruence.
    + apply not_three_check in H. congruence.
    + apply offender_found in H. congruence.
Qed.

Lemma primary_validation_rejects_exactly_witness :
  ~ is_validation_error
      (fst (Primary.post_stitch (Demo.world_with Demo.ffmpeg_ok)
              (Demo.post Demo.null_video_body) "ab" 0 Demo.empty)).
Proof.
  intros H.
  apply (primary_validation_rejects_exactly (Demo.world_with Demo.ffmpeg_ok)
           (Demo.post Demo.null_video_body) "ab" 0 Demo.empty eq_refl) in H.
  destruct H as [H|[H|H]].
  - specialize (H "http://cdn.test/n.mp3" eq_refl). discriminate.
  - now destruct (H _ eq_refl).
  - apply offender_found in H. discriminate.
Defined.

Lemma narration_check_inv (v : Js.value) :
  negb (Js.truthy v) || negb (Js.is_string v) = true <->
  (forall s, v = Js.Str s -> s = "").
Proof.
  split.
  - intros H s ->. cbn in H. rewrite orb_false_r in H.
    destruct (String.eqb_spec s ""); [assumption|discriminate].
  - intros H. destruct v as [| |b|n|s|l|fs]; cbn; rewrite ?orb_true_r; try reflexivity.
    now rewrite (H s eq_refl).
Qed.

(** Validation in the handler of [server.js], in full: a submission that
    passes the key gate is answered with a validation error exactly when
    it has a body and [videos] is not an array of exactly three elements
    or [narrationUrl] is not a non-empty string. The entries of [videos]
    and the form of [narrationUrl] are not looked at. *)
Theorem legacy_validation_rejects_exactly
  (w : world) (req : request) (suffix : string) (st : state) :
  unauthorized (API_KEY w) (req_api_key req) = false ->
  (is_validation_error (fst (Legacy.post_stitch w req suffix st)) <->
   Js.nullish (req_body req) = false /\
   (not_three (Js.opt_prop (req_body req) "videos") \/
    forall s, Js.opt_prop (req_body req) "narrationUrl" = Js.Str s -> s = "")).
Proof.
  intros Hauth. unfold Legacy.post_stitch. rewrite Hauth.
  destruct (Js.nullish (req_body req)) eqn:Hb.
  { split; [|now intros [H _]]. intros [err H]. cbn in H. discriminate. }
  destruct (negb (Js.is_array (Js.opt_prop (req_body req) "videos")) ||
            negb (Nat.eqb (length (Js.elements (Js.opt_prop (req_body req) "videos"))) 3))
    eqn:Hv.
  { split; [intros _; split; [reflexivity|left; now apply not_three_check_inv]|].
    intros _. cbn. eexists; reflexivity. }
  destruct (negb (Js.truthy (Js.opt_prop (req_body req) "narrationUrl")) ||
            negb (Js.is_string (Js.opt_prop (req_body req) "narrationUrl"))) eqn:Hn.
  { split; [intros _; split; [reflexivity|right; now apply narration_check_inv]|].
    intros _. cbn. eexists; reflexivity. }
  split.
  - intros [err H]. past_the_guards H. cbn in H. lia.
  - intros [_ [H|H]]; exfalso.
    + apply not_three_check in H. congruence.
    + apply narration_check_inv in H. congruence.
Qed.

Lemma legacy_validation_rejects_exactly_witness :
  is_validation_error
    (fst (Legacy.post_stitch (Demo.world_with Demo.ffmpeg_ok)
            (Demo.post Demo.malformed_body) "x1" Demo.empty)).
Proof.
  apply (legacy_validation_rejects_exactly (Demo.world_with Demo.ffmpeg_ok)
           (Demo.post Demo.malformed_body) "x1" Demo.empty eq_refl).
  split; [reflexivity|]. left. intros l [= <-]. cbn. discriminate.
Defined.

(** ** Retrieval of an entry whose file is gone *)

(** When the file of an entry is missing, retrieval answers 500 with the
    download headers and no body, and the entry stays in the store: after
    any number of retrievals the answer is 500 again, never not-found. *)
Theorem missing_file_answers_500 (cs : list call) (st : state) (id : string)
  (meta : result_entry) (now : Z) :
  forallb is_retrieve cs = true ->
  results st !! id = Some meta ->
  files st !! filePath meta = None ->
  fst (serve (Retrieve now id) (snd (serve_all cs st))) =
    Some (Returned
            {| status := 500;
               headers := [("Content-Type", "video/mp4");
                           ("Content-Disposition",
                            "attachment; filename=" +:+ dq +:+ "final_" +:+ id +:+ ".mp4" +:+ dq)];
               sent := NoBody |}) /\
  results (snd (serve_all cs st)) !! id = Some meta.
Proof.
  intros Hcs Hid Hfile.
  destruct (serve_all_retrievals_frame cs st Hcs) as [Hr Hf].
  split; [|now rewrite Hr].
  cbn [serve fst]. f_equal.
  unfold Primary.get_result, Primary.results_get.
  rewrite bind_run. cbn [fst snd request_for req_id]. rewrite Hr, Hid.
  rewrite bind_run. cbn [perform]. rewrite bind_run. cbn [get_files files].
  rewrite Hf, Hfile. reflexivity.
Qed.

Lemma missing_file_answers_500_witness :
  results (snd (serve_all [Retrieve 1 "ab"] Demo.file_lost)) !! "ab" =
    Some {| filePath := "/tmp/final_ab.mp4"; expiresAt := 1800000 |}.
Proof.
  apply (missing_file_answers_500 [Retrieve 1 "ab"] Demo.file_lost "ab"
           {| filePath := "/tmp/final_ab.mp4"; expiresAt := 1800000 |} 2);
    reflexivity.
Defined.

(** ** The concat list file as ffmpeg finds it *)







